(** * Stock price monitor client: configuration, logger factory, retry wrapper

    A shallow embedding of the three utility modules of the client
    ([client/src/config.py], [client/src/utils/logger.py] and
    [client/src/utils/retry.py]) and the properties of their behaviour.

    Conventions of the embedding:
    - Python [int] is [Z]; Python [str] is [string], the bytes of its
      UTF-8 encoding.
    - Delays are exact rationals [Q]: a Python [int] argument is itself, a
      [float] argument is taken at its exact value. Where the interpreter
      does something that the value alone does not decide, the embedding
      says so with an outcome of its own ([Undetermined]) instead of
      choosing.
    - Effects are explicit: the wrapped operation threads a state of its own,
      and every observable action of the wrapper (calling the operation,
      logging a warning, sleeping) is recorded, in order, in a trace.
    - Dictionaries ([os.environ], the logger registry, the file system) are
      finite maps. *)

From Stdlib Require Import ZArith QArith Qminmax String Ascii List Lia.
From stdpp Require Import base option list gmap strings pretty.

Local Close Scope Q_scope.
Local Open Scope string_scope.
Local Open Scope Z_scope.

(** ** Python exceptions *)

(** An exception object: whether its class derives from [Exception] (the
    classes that [except Exception] catches; [KeyboardInterrupt] and
    [SystemExit] do not), its [str()], and its implicit [__context__]. *)
#[warnings="-register-all"]
Inductive py_exc : Type :=
  PyExc (is_Exception : bool) (message : string) (context : option py_exc).

Definition is_Exception (e : py_exc) : bool :=
  match e with PyExc b _ _ => b end.

Definition message (e : py_exc) : string :=
  match e with PyExc _ m _ => m end.

Definition context (e : py_exc) : option py_exc :=
  match e with PyExc _ _ c => c end.

(** ** The retry wrapper ([utils/retry.py]) *)

Module Retry.

(** What an observer of one call of the wrapper sees, in order. *)
Inductive event : Type :=
| Call                    (* the operation is invoked *)
| Warning (msg : string)  (* logger.warning(msg) *)
| Sleep (seconds : Q).    (* time.sleep(seconds) returns after sleeping *)

(** How a call ends. [Undetermined] is the embedding's own: the call ends
    in a way that the values at hand do not decide (see [loop]). *)
Inductive outcome (V : Type) : Type :=
| Returned (v : V)
| Raised (e : py_exc)
| Undetermined.
Arguments Returned {V} v.
Arguments Raised {V} e.
Arguments Undetermined {V}.

(** Number of invocations of the operation recorded in a trace. *)
Fixpoint calls (tr : list event) : nat :=
  match tr with
  | [] => O
  | Call :: tr' => S (calls tr')
  | _ :: tr' => calls tr'
  end.

(** The delays slept, in order. *)
Fixpoint sleeps (tr : list event) : list Q :=
  match tr with
  | [] => []
  | Sleep d :: tr' => d :: sleeps tr'
  | _ :: tr' => sleeps tr'
  end.

(** The warnings logged, in order. *)
Fixpoint warnings (tr : list event) : list string :=
  match tr with
  | [] => []
  | Warning m :: tr' => m :: warnings tr'
  | _ :: tr' => warnings tr'
  end.


(** *** [time.sleep]

    CPython turns the length into a count of nanoseconds in 64 bits, refuses
    a negative count, and hands the rest to the platform.
    - A length of 9223372037 seconds or more in size does not fit the count
      and is refused with an [OverflowError].
    - A length from -9223372036 up to, but not including, 0 is refused with
      a [ValueError].
    - A length from 0 to 4294967 seconds is slept, whether it is an [int]
      or a [float], on every platform.
    - In between, the embedding leaves the outcome open. In the last second
      before each of the two limits an [int] cannot lie, and for a [float]
      the rounding of the conversion decides. And a length of more than
      4294967 seconds (about 49 days) is slept or refused depending on the
      platform and the version: older builds for Windows refuse it as too
      large, and on Linux the deadline, the reading of the monotonic clock
      plus the length, has to fit the count as well. *)
Inductive sleep_result : Type :=
| Slept
| Negative
| TooLarge
| Unsettled.

Definition time_sleep (secs : Q) : sleep_result :=
  if Qle_bool 0 secs then
    if Qle_bool secs 4294967 then Slept
    else if Qle_bool 9223372037 secs then TooLarge
    else Unsettled
  else
    if Qle_bool (-9223372036) secs then Negative
    else if Qle_bool secs (-9223372037) then TooLarge
    else Unsettled.

Section Wrapper.
(** [St] is the state the operation reads and updates (a server, a
    counter of calls, ...); [V] is the type of its results. *)
Context {St V : Type}.

(** Arguments of [retry_with_exponential_backoff]. *)
Variable max_retries : Z.
Variables base_delay max_delay : Q.

(** The decorated function: [func.__name__] and its behaviour with the
    forwarded arguments fixed. *)
Variable func_name : string.
Variable func : St -> St * outcome V.

(** The value of [min(base_delay * (2 ** retries), max_delay)] where the
    interpreter computes one; Python's [min] returns its first argument
    unless the second is strictly smaller, as [Qmin].

    For a counter from 0 to 1023 the interpreter always computes a value.
    With [int] arguments it is this one. With a [float] [base_delay] the
    product is exact (scaling by a power of two) as long as it stays in the
    range of floats, and is an infinity beyond: the value passed to
    [time.sleep] then differs from this one only where both are too large
    in size for [time.sleep], so that [time_sleep] of this value is what
    the code does. From the counter value 1024 on, a [float] [base_delay]
    makes the product raise [OverflowError] (2 ** 1024 has no float) while
    an [int] one goes on: the value of [base_delay] does not tell which,
    and [loop] stops there. *)
Definition delay (retries : Z) : Q :=
  Qmin (base_delay * inject_Z (2 ^ retries)) max_delay.

(** f"Retrying {func.__name__} due to error: {e}" *)
Definition warning_message (e : py_exc) : string :=
  "Retrying " ++ func_name ++ " due to error: " ++ message e.

(** Exception(f"Function {func.__name__} failed after {max_retries} retries."),
    raised after the loop, outside any handler: no [__context__]. *)
Definition terminal_failure : py_exc :=
  PyExc true
    ("Function " ++ func_name ++ " failed after " ++ pretty max_retries
       ++ " retries.")
    None.

(** The two errors of [time.sleep]; raised inside the [except] block, they
    carry the handled error as context. The text of the second is that of
    CPython 3.11. *)
Definition sleep_error (e : py_exc) : py_exc :=
  PyExc true "sleep length must be non-negative" (Some e).

Definition overflow_error (e : py_exc) : py_exc :=
  PyExc true "timestamp too large to convert to C _PyTime_t" (Some e).

(** The [while retries < max_retries] loop. [fuel] bounds the number of
    iterations; [None] means the fuel ran out.

    After a caught failure the warning is logged, then the delay is computed
    and slept. The run ends there when [time.sleep] refuses the delay, and
    it ends as [Undetermined] where the values of the delays do not decide
    what happens: at a counter of 1024 or more, where their type does, and
    for a delay that [time_sleep] leaves open. *)
Fixpoint loop (fuel : nat) (retries : Z) (s : St)
  : option (list event * St * outcome V) :=
  match fuel with
  | O => None
  | S fuel' =>
      if retries <? max_retries then
        match func s with
        | (s', Returned v) => Some ([Call], s', Returned v)
        | (s', Raised e) =>
            if is_Exception e then
              if retries <? 1024 then
                let d := delay retries in
                match time_sleep d with
                | Slept =>
                    match loop fuel' (retries + 1) s' with
                    | Some (tr, s'', r) =>
                        Some (Call :: Warning (warning_message e)
                                :: Sleep d :: tr, s'', r)
                    | None => None
                    end
                | Negative =>
                    Some ([Call; Warning (warning_message e)], s',
                          Raised (sleep_error e))
                | TooLarge =>
                    Some ([Call; Warning (warning_message e)], s',
                          Raised (overflow_error e))
                | Unsettled =>
                    Some ([Call; Warning (warning_message e)], s',
                          Undetermined)
                end
              else Some ([Call; Warning (warning_message e)], s', Undetermined)
            else Some ([Call], s', Raised e)
        | (s', Undetermined) => Some ([Call], s', Undetermined)
        end
      else Some ([], s, Raised terminal_failure)
  end.

(** The body of [wrapper]: [retries = 0], then the loop. The loop runs
    at most [max_retries] iterations and one more test of its condition. *)
Definition wrapper (s : St) : option (list event * St * outcome V) :=
  loop (S (Z.to_nat max_retries)) 0 s.

(** State of the operation after [n] invocations starting from [s]. *)
Fixpoint state_after (n : nat) (s : St) : St :=
  match n with
  | O => s
  | S n' => state_after n' (fst (func s))
  end.

(** The [n]-th invocation (counting from 0) fails with an error that
    [except Exception] catches. *)
Definition fails_at (s : St) (n : nat) : Prop :=
  exists e, snd (func (state_after n s)) = Raised e /\ is_Exception e = true.

(** The [n]-th invocation returns [v]. *)
Definition succeeds_at (s : St) (n : nat) (v : V) : Prop :=
  snd (func (state_after n s)) = Returned v.

(** What [n] iterations in a row that each catch an error and sleep leave
    in the trace, the first of them at counter value [retries]. *)
Fixpoint failed_attempts (n : nat) (retries : Z) (s : St) : list event :=
  match n with
  | O => []
  | S n' =>
      match snd (func s) with
      | Raised e =>
          Call :: Warning (warning_message e) :: Sleep (delay retries)
            :: failed_attempts n' (retries + 1) (fst (func s))
      | _ => []
      end
  end.

End Wrapper.

(** A failure [t] wraps [e] when [e] is chained to it, and describes [e]
    when the text of [e] occurs in its own. *)
Definition wraps (t e : py_exc) : Prop := context t = Some e.

Definition describes (t e : py_exc) : Prop :=
  is_Some (String.index 0 (message e) (message t)).

(** *** Sample operations *)

(** [fetch_data] of the module's example: every call fails. The state
    counts the calls made. *)
Definition network_error : py_exc :=
  PyExc true "Simulated network error" None.

Definition fetch_data (n : nat) : nat * outcome nat :=
  (S n, Raised network_error).

(** An operation that fails on its first [k] calls and then returns the
    number of calls made before. *)
Definition flaky (k : nat) (n : nat) : nat * outcome nat :=
  (S n, if (n <? k)%nat then Raised network_error else Returned n).

(** An operation that never fails. *)
Definition reliable (n : nat) : nat * outcome nat :=
  (S n, Returned n).

(** An operation that fails on its first [k] calls and is interrupted from
    the keyboard on the next one. *)
Definition keyboard_interrupt : py_exc := PyExc false "" None.

Definition interrupted (k : nat) (n : nat) : nat * outcome nat :=
  (S n, Raised (if (n <? k)%nat then network_error else keyboard_interrupt)).

(** An operation that always fails with an error of another text. *)
Definition timeout_error : py_exc := PyExc true "timed out" None.

Definition always_times_out (n : nat) : nat * outcome nat :=
  (S n, Raised timeout_error).


End Retry.

(** ** Configuration ([config.py]) *)

Module Config.

(** *** Python built-ins used by the class body *)

(** [str.split(sep)] for a one-character separator: the pieces between the
    occurrences of [sep], empty pieces included. *)
Fixpoint split (sep : ascii) (s : string) : list string :=
  match s with
  | EmptyString => [EmptyString]
  | String c rest =>
      if Ascii.eqb c sep then EmptyString :: split sep rest
      else match split sep rest with
           | piece :: pieces => String c piece :: pieces
           | [] => [String c EmptyString]
           end
  end.

(** Whitespace that [int()] skips around a literal made of ASCII characters:
    tab to carriage return, and space. *)
Definition is_space (c : ascii) : bool :=
  let n := nat_of_ascii c in
  ((9 <=? n) && (n <=? 13) || (n =? 32))%nat.

Definition digit_of (c : ascii) : option Z :=
  let n := nat_of_ascii c in
  if ((48 <=? n) && (n <=? 57))%nat then Some (Z.of_nat (n - 48)) else None.

Fixpoint lstrip (s : string) : string :=
  match s with
  | String c rest => if is_space c then lstrip rest else s
  | EmptyString => EmptyString
  end.

Definition strip (s : string) : string :=
  String.rev (lstrip (String.rev (lstrip s))).

(** The digit part of a base-10 literal: one or more digits, single
    underscores allowed between digits only. [after_digit] tells whether the
    previous character was a digit. *)
Fixpoint digits (acc : Z) (after_digit : bool) (s : string) : option Z :=
  match s with
  | EmptyString => if after_digit then Some acc else None
  | String c rest =>
      match digit_of c with
      | Some d => digits (10 * acc + d) true rest
      | None =>
          if Ascii.eqb c "_" && after_digit then digits acc false rest
          else None
      end
  end.

(** The base-10 literals written in ASCII and their values: blanks around,
    an optional sign, the digits. *)
Definition literal (s : string) : option Z :=
  match strip s with
  | String "+" rest => digits 0 false rest
  | String "-" rest => Z.opp <$> digits 0 false rest
  | t => digits 0 false t
  end.

(** Every byte of the string is an ASCII character. *)
Fixpoint ascii_only (s : string) : bool :=
  match s with
  | EmptyString => true
  | String c rest => (nat_of_ascii c <? 128)%nat && ascii_only rest
  end.

(** Number of digits in a string. *)
Fixpoint count_digits (s : string) : nat :=
  match s with
  | EmptyString => O
  | String c rest =>
      match digit_of c with
      | Some _ => S (count_digits rest)
      | None => count_digits rest
      end
  end.

(** What [int(s)] does with a string: it returns an integer, it raises
    [ValueError], or the embedding does not tell. *)
Inductive parsed : Type :=
| Parsed (n : Z)
| Rejected
| Unknown.

(** [int(s)] as far as the string itself decides it.

    A string of ASCII characters is read by the grammar of [literal], and
    one that is no literal is rejected. Two things are left to the
    interpreter. On a string with other characters, [int()] goes by the
    tables of Unicode: it takes the decimal digits and the blanks of every
    script. And a literal of more than 640 digits is converted or rejected
    according to the interpreter's limit on the length of integer strings
    (4300 digits unless configured otherwise, from CPython 3.11 on; no
    setting of the limit refuses 640 digits or fewer). *)
Definition py_int (s : string) : parsed :=
  if ascii_only s then
    match literal s with
    | Some n => if (640 <? count_digits s)%nat then Unknown else Parsed n
    | None => Rejected
    end
  else Unknown.

(** *** Errors *)

(** Both failures of this module are [ValueError]s: the one [int()] raises
    while the class body runs, and the ones [validate] raises with a message. *)
Inductive ValueError : Type :=
| InvalidLiteral (s : string)
| Invalid (msg : string).

(** [Undetermined]: the class body reaches an [int()] that the embedding
    leaves open. *)
Inductive result (A : Type) : Type :=
| Ok (a : A)
| Err (e : ValueError)
| Undetermined.
Arguments Ok {A} a.
Arguments Err {A} e.
Arguments Undetermined {A}.

Definition bind {A B : Type} (r : result A) (k : A -> result B) : result B :=
  match r with
  | Ok a => k a
  | Err e => Err e
  | Undetermined => Undetermined
  end.

Notation "x <- r ;; k" := (bind r (fun x => k))
  (at level 100, r at next level, right associativity).

(** *** The class attributes *)

Record Config : Type := {
  ALPHA_VANTAGE_API_KEY : string;
  ALPHA_VANTAGE_BASE_URL : string;
  STOCK_SYMBOLS : list string;
  SERVER_URL : string;
  LOG_LEVEL : string;
  RETRY_COUNT : Z;
  RETRY_DELAY : Z;
  POLL_INTERVAL : Z
}.

(** [os.getenv(key, default)] with a string default, on the environment as
    it stands after [load_dotenv()]. *)
Definition getenv (env : gmap string string) (key default : string) : string :=
  match env !! key with
  | Some v => v
  | None => default
  end.

(** STOCK_SYMBOLS = os.getenv(...).split(",") *)
Definition load_STOCK_SYMBOLS (env : gmap string string) : list string :=
  split "," (getenv env "STOCK_SYMBOLS" "AAPL,GOOGL,MSFT,AMZN,TSLA").

Section ClassBody.
(** The built-in [int] on strings, as the interpreter at hand has it. *)
Variable int : string -> parsed.

(** [int(os.getenv(key, default))] with an integer default: [int] parses the
    variable when it is set and is the identity on the default. *)
Definition int_getenv_with (env : gmap string string) (key : string)
    (default : Z) : result Z :=
  match env !! key with
  | Some v =>
      match int v with
      | Parsed n => Ok n
      | Rejected => Err (InvalidLiteral v)
      | Unknown => Undetermined
      end
  | None => Ok default
  end.

(** Evaluation of the class body, top to bottom; the first [int()] that
    fails aborts it. *)
Definition load_with (env : gmap string string) : result Config :=
  let api_key := getenv env "ALPHA_VANTAGE_API_KEY" "your_default_api_key" in
  let base_url :=
    getenv env "ALPHA_VANTAGE_BASE_URL" "https://www.alphavantage.co/query" in
  let symbols := load_STOCK_SYMBOLS env in
  let server_url :=
    getenv env "SERVER_URL" "http://localhost:8000/api/v1/stocks" in
  let log_level := getenv env "LOG_LEVEL" "INFO" in
  retry_count <- int_getenv_with env "RETRY_COUNT" 3 ;;
  retry_delay <- int_getenv_with env "RETRY_DELAY" 5 ;;
  poll_interval <- int_getenv_with env "POLL_INTERVAL" 60 ;;
  Ok {| ALPHA_VANTAGE_API_KEY := api_key;
        ALPHA_VANTAGE_BASE_URL := base_url;
        STOCK_SYMBOLS := symbols;
        SERVER_URL := server_url;
        LOG_LEVEL := log_level;
        RETRY_COUNT := retry_count;
        RETRY_DELAY := retry_delay;
        POLL_INTERVAL := poll_interval |}.

End ClassBody.

(** The class body with [int()] as far as the embedding has it. *)
Definition int_getenv : gmap string string -> string -> Z -> result Z :=
  int_getenv_with py_int.

Definition load : gmap string string -> result Config :=
  load_with py_int.

(** Python truth value of a string and of a list: empty is false. *)
Definition str_is_empty (s : string) : bool :=
  match s with EmptyString => true | _ => false end.

Definition list_is_empty {A : Type} (l : list A) : bool :=
  match l with [] => true | _ => false end.

Definition validate (c : Config) : result unit :=
  if str_is_empty (ALPHA_VANTAGE_API_KEY c) then
    Err (Invalid "ALPHA_VANTAGE_API_KEY is not set in the environment variables.")
  else if list_is_empty (STOCK_SYMBOLS c) then
    Err (Invalid "STOCK_SYMBOLS is not set in the environment variables.")
  else if str_is_empty (SERVER_URL c) then
    Err (Invalid "SERVER_URL is not set in the environment variables.")
  else if RETRY_COUNT c <? 0 then
    Err (Invalid "RETRY_COUNT must be a non-negative integer.")
  else if RETRY_DELAY c <? 0 then
    Err (Invalid "RETRY_DELAY must be a non-negative integer.")
  else if POLL_INTERVAL c <=? 0 then
    Err (Invalid "POLL_INTERVAL must be a positive integer.")
  else Ok tt.

(** Importing the module, then calling [Config.validate()]. *)
Definition load_and_validate_with (int : string -> parsed)
    (env : gmap string string) : result unit :=
  c <- load_with int env ;; validate c.

Definition load_and_validate (env : gmap string string) : result unit :=
  c <- load env ;; validate c.

(** The settings [validate] checks, in the order it checks them. *)
Inductive setting : Type :=
| API_KEY | SYMBOLS | SERVER | COUNT | DELAY | INTERVAL.

Definition setting_name (x : setting) : string :=
  match x with
  | API_KEY => "ALPHA_VANTAGE_API_KEY"
  | SYMBOLS => "STOCK_SYMBOLS"
  | SERVER => "SERVER_URL"
  | COUNT => "RETRY_COUNT"
  | DELAY => "RETRY_DELAY"
  | INTERVAL => "POLL_INTERVAL"
  end.

(** The condition under which a setting is out of its valid range. *)
Definition offending (c : Config) (x : setting) : Prop :=
  match x with
  | API_KEY => ALPHA_VANTAGE_API_KEY c = ""
  | SYMBOLS => STOCK_SYMBOLS c = []
  | SERVER => SERVER_URL c = ""
  | COUNT => RETRY_COUNT c < 0
  | DELAY => RETRY_DELAY c < 0
  | INTERVAL => POLL_INTERVAL c <= 0
  end.

(** The message [validate] raises for a setting. *)
Definition validation_message (x : setting) : string :=
  match x with
  | API_KEY => "ALPHA_VANTAGE_API_KEY is not set in the environment variables."
  | SYMBOLS => "STOCK_SYMBOLS is not set in the environment variables."
  | SERVER => "SERVER_URL is not set in the environment variables."
  | COUNT => "RETRY_COUNT must be a non-negative integer."
  | DELAY => "RETRY_DELAY must be a non-negative integer."
  | INTERVAL => "POLL_INTERVAL must be a positive integer."
  end.

(** The place of a setting in the order of the checks. *)
Definition rank (x : setting) : nat :=
  match x with
  | API_KEY => 0 | SYMBOLS => 1 | SERVER => 2
  | COUNT => 3 | DELAY => 4 | INTERVAL => 5
  end.

(** Occurrences of a character in a string. *)
Fixpoint count_char (c : ascii) (s : string) : nat :=
  match s with
  | EmptyString => O
  | String c' rest =>
      if Ascii.eqb c' c then S (count_char c rest) else count_char c rest
  end.

(** No character of the string is whitespace. *)
Fixpoint nospace (s : string) : bool :=
  match s with
  | EmptyString => true
  | String c rest => negb (is_space c) && nospace rest
  end.

(** The settings the class body parses with [int()]. *)
Definition integer_setting (key : string) : Prop :=
  key = "RETRY_COUNT" \/ key = "RETRY_DELAY" \/ key = "POLL_INTERVAL".

(** The attributes when only STOCK_SYMBOLS is set, to the empty string: one
    symbol, the empty one. *)
Definition config_with_empty_symbols : Config :=
  {| ALPHA_VANTAGE_API_KEY := "your_default_api_key";
     ALPHA_VANTAGE_BASE_URL := "https://www.alphavantage.co/query";
     STOCK_SYMBOLS := [""];
     SERVER_URL := "http://localhost:8000/api/v1/stocks";
     LOG_LEVEL := "INFO";
     RETRY_COUNT := 3;
     RETRY_DELAY := 5;
     POLL_INTERVAL := 60 |}.

End Config.
(** ** Logger factory ([utils/logger.py]) *)

Module Logger.

(** *** The part of Python's [logging] that [setup_logger] relies on

    Loggers live in a process-wide registry keyed by name, next to the root
    logger; handlers write lines to a file or to the console. Filters, the
    [disabled] flag and [logging.disable] are never touched by the module and
    are left at their defaults. *)

(** [logging._nameToLevel] *)
Definition nameToLevel : gmap string Z :=
  list_to_map
    [("CRITICAL", 50); ("FATAL", 50); ("ERROR", 40); ("WARN", 30);
     ("WARNING", 30); ("INFO", 20); ("DEBUG", 10); ("NOTSET", 0)].

(** What one log call carries: the logger's name, the numeric severity, the
    message, and the time of the call as the formatter prints it. *)
Record LogRecord : Type := {
  r_name : string;
  r_levelno : Z;
  r_message : string;
  r_asctime : string
}.

(** One line of output: a record as rendered by a format string. *)
Record line : Type := Line { l_format : string; l_record : LogRecord }.

Inductive stream : Type :=
| FileStream (path : string)  (* logging.FileHandler(path), append mode *)
| Stderr.                     (* logging.StreamHandler() *)

Record Handler : Type := {
  h_stream : stream;
  h_level : Z;
  h_format : string
}.

Record Logger : Type := {
  level : Z;
  handlers : list Handler;
  propagate : bool
}.

(** The process-wide state: the root logger, [Manager.loggerDict], the
    contents of the log files and of the console. *)
Record Logging : Type := {
  root : Logger;
  loggerDict : gmap string Logger;
  files : gmap string (list line);
  stderr : list line
}.

(** A freshly created logger: level NOTSET, no handler, propagating. *)
Definition new_logger : Logger :=
  {| level := 0; handlers := []; propagate := true |}.

(** The state of [logging] in a fresh interpreter: the root logger at
    WARNING, nothing registered, nothing written. *)
Definition initial : Logging :=
  {| root := {| level := 30; handlers := []; propagate := true |};
     loggerDict := ∅; files := ∅; stderr := [] |}.

(** A logger object is identified by its place in the registry. *)
Inductive LoggerRef : Type :=
| Root
| Named (name : string).

(** The logger [logging.getLogger(name)] returns, for any registry. *)
Definition ref_of (name : string) : LoggerRef :=
  if decide (name = "" \/ name = "root") then Root else Named name.

(** [logging.getLogger(name)]: the root logger for an empty name or its own
    name, else the registered logger, created on first request. *)
Definition getLogger (name : string) (st : Logging) : LoggerRef * Logging :=
  match ref_of name with
  | Root => (Root, st)
  | Named n =>
      match loggerDict st !! n with
      | Some _ => (Named n, st)
      | None =>
          (Named n,
           {| root := root st;
              loggerDict := <[n := new_logger]> (loggerDict st);
              files := files st;
              stderr := stderr st |})
      end
  end.

Definition get (st : Logging) (r : LoggerRef) : Logger :=
  match r with
  | Root => root st
  | Named n => default new_logger (loggerDict st !! n)
  end.

(** In-place update of a logger object. *)
Definition update (r : LoggerRef) (f : Logger -> Logger) (st : Logging)
  : Logging :=
  match r with
  | Root =>
      {| root := f (root st); loggerDict := loggerDict st;
         files := files st; stderr := stderr st |}
  | Named n =>
      {| root := root st; loggerDict := alter f n (loggerDict st);
         files := files st; stderr := stderr st |}
  end.

Definition setLevel (lv : Z) (l : Logger) : Logger :=
  {| level := lv; handlers := handlers l; propagate := propagate l |}.

Definition addHandler (h : Handler) (l : Logger) : Logger :=
  {| level := level l; handlers := (handlers l ++ [h])%list;
     propagate := propagate l |}.

(** The format both handlers are given. *)
Definition FORMAT : string :=
  "%(asctime)s - %(name)s - %(levelname)s - %(message)s".

(** [Logger.hasHandlers] and [Logger.callHandlers] walk from the logger up
    through its parents while [propagate] is set. *)
Fixpoint chain_hasHandlers (chain : list Logger) : bool :=
  match chain with
  | [] => false
  | c :: rest =>
      match handlers c with
      | _ :: _ => true
      | [] => if propagate c then chain_hasHandlers rest else false
      end
  end.

Fixpoint chain_handlers (chain : list Logger) : list Handler :=
  match chain with
  | [] => []
  | c :: rest =>
      (handlers c ++ (if propagate c then chain_handlers rest else []))%list
  end.

(** [Logger.getEffectiveLevel]: the first level that is set on the way up,
    whatever [propagate] says. *)
Fixpoint chain_level (chain : list Logger) : Z :=
  match chain with
  | [] => 0
  | c :: rest => if level c =? 0 then chain_level rest else level c
  end.

(** [Handler.emit]: a file handler appends to its file, a stream handler to
    the console. *)
Definition emit (ln : line) (h : Handler) (st : Logging) : Logging :=
  match h_stream h with
  | FileStream p =>
      {| root := root st; loggerDict := loggerDict st;
         files := <[p := (default [] (files st !! p) ++ [ln])%list]> (files st);
         stderr := stderr st |}
  | Stderr =>
      {| root := root st; loggerDict := loggerDict st;
         files := files st; stderr := (stderr st ++ [ln])%list |}
  end.

(** Opening a file for appending creates it when it does not exist. *)
Definition open_append (p : string) (st : Logging) : Logging :=
  {| root := root st; loggerDict := loggerDict st;
     files := <[p := default [] (files st !! p)]> (files st);
     stderr := stderr st |}.

Inductive setup_error : Type :=
| UnknownLevel (level : string)  (* ValueError of setLevel *)
| OpenFailed (path : string).    (* OSError of FileHandler *)

Section Process.
(** The names above a logger: for a logger name, the names under which the
    manager looks for its parents, nearest first (the root logger, which
    ends every chain, is not listed). *)
Variable ancestors : string -> list string.

(** Whether the process may open a path for appending. *)
Variable can_open : string -> bool.

(** The loggers above [r], nearest first, ending with the root logger: the
    loggers registered under the names above [r]; a name that was never
    requested has no logger.

    CPython links a logger to its parent when the logger is created, and
    moves the link when a logger is created in between later on. For the
    dotted prefixes of a name as the names above it ([dotted_ancestors]
    below), the chain of links is the one read here off the registry, with
    two exceptions. A logger named "r", "ro" or "roo" (a beginning of
    "root", the root logger's own name) does not take over the loggers
    created before it, which stay under the root logger. And the manager
    steps over the prefix that ends between two consecutive dots. What is
    read here is the chain that CPython follows for every logger whose name
    has no consecutive dots and none of these three names above it. *)
Definition parents (st : Logging) (r : LoggerRef) : list Logger :=
  match r with
  | Root => []
  | Named n =>
      (omap (fun a => loggerDict st !! a) (ancestors n) ++ [root st])%list
  end.

Definition hasHandlers (st : Logging) (r : LoggerRef) : bool :=
  chain_hasHandlers (get st r :: parents st r).

Definition getEffectiveLevel (st : Logging) (r : LoggerRef) : Z :=
  chain_level (get st r :: parents st r).

Definition name_of (r : LoggerRef) : string :=
  match r with Root => "root" | Named n => n end.

(** [logger.log(levelno, msg)] (and so [debug], [info], [warning], [error],
    [critical]) at time [asctime]: if the logger is enabled for the
    severity, every handler on the way up whose own level admits the record
    emits it; with no handler at all, the last-resort handler prints
    warnings and worse to the console. *)
Definition log (r : LoggerRef) (levelno : Z) (msg asctime : string)
  (st : Logging) : Logging :=
  let record := {| r_name := name_of r; r_levelno := levelno;
                   r_message := msg; r_asctime := asctime |} in
  if getEffectiveLevel st r <=? levelno then
    match chain_handlers (get st r :: parents st r) with
    | [] =>
        if 30 <=? levelno then
          emit (Line "%(message)s" record)
               {| h_stream := Stderr; h_level := 30;
                  h_format := "%(message)s" |} st
        else st
    | hs =>
        foldl (fun st' h =>
                 if h_level h <=? levelno
                 then emit (Line (h_format h) record) h st'
                 else st')
              st hs
    end
  else st.

(** *** [setup_logger(name, log_file, level)]

    Returns the new state of the process and either the logger or the
    error raised ([log_file] defaults to "app.log", [level] to "INFO"). *)
Definition setup_logger (name log_file level : string) (st : Logging)
  : Logging * (LoggerRef + setup_error) :=
  let '(logger, st1) := getLogger name st in
  match nameToLevel !! level with
  | None => (st1, inr (UnknownLevel level))
  | Some lv =>
      let st2 := update logger (setLevel lv) st1 in
      if negb (hasHandlers st2 logger) then
        if can_open log_file then
          let st3 := open_append log_file st2 in
          let file_handler :=
            {| h_stream := FileStream log_file; h_level := lv;
               h_format := FORMAT |} in
          let console_handler :=
            {| h_stream := Stderr; h_level := lv; h_format := FORMAT |} in
          let st4 := update logger (addHandler file_handler) st3 in
          let st5 := update logger (addHandler console_handler) st4 in
          (st5, inl logger)
        else (st2, inr (OpenFailed log_file))
      else (st2, inl logger)
  end.

(** A logger object exists for the reference. *)
Definition registered (st : Logging) (r : LoggerRef) : Prop :=
  match r with
  | Root => True
  | Named n => is_Some (loggerDict st !! n)
  end.

(** The logger is not listed among its own ancestors. *)
Definition acyclic (r : LoggerRef) : Prop :=
  match r with
  | Root => True
  | Named n => n ∉ ancestors n
  end.

(** The two handlers [setup_logger] creates for a file and a level. *)
Definition file_handler (log_file : string) (lv : Z) : Handler :=
  {| h_stream := FileStream log_file; h_level := lv; h_format := FORMAT |}.

Definition console_handler (lv : Z) : Handler :=
  {| h_stream := Stderr; h_level := lv; h_format := FORMAT |}.

(** A series of log calls on one logger, each a severity, a message and
    the time of the call. *)
Definition log_calls (r : LoggerRef) (cs : list (Z * string * string))
  (st : Logging) : Logging :=
  foldl (fun st' c => log r c.1.1 c.1.2 c.2 st') st cs.

(** The line a handler set up by [setup_logger] writes for a log call. *)
Definition written (r : LoggerRef) (c : Z * string * string) : line :=
  Line FORMAT {| r_name := name_of r; r_levelno := c.1.1;
                 r_message := c.1.2; r_asctime := c.2 |}.

(** The lines that a series of log calls sends to handlers of level [lv]. *)
Definition output (r : LoggerRef) (lv : Z) (cs : list (Z * string * string))
  : list line :=
  map (written r) (List.filter (fun c => lv <=? c.1.1) cs).

End Process.

(** The names above a name without consecutive dots: its dotted prefixes,
    nearest first ("a.b" and "a" for "a.b.c", none for a name without
    dots). [acc] is the part of the name already read. *)
Fixpoint dotted_prefixes (acc : string) (s : string) : list string :=
  match s with
  | EmptyString => []
  | String c rest =>
      let found := dotted_prefixes (acc ++ String c EmptyString) rest in
      if Ascii.eqb c "." && negb (Config.str_is_empty acc)
      then (found ++ [acc])%list
      else found
  end.

Definition dotted_ancestors (name : string) : list string :=
  dotted_prefixes "" name.

(** The state of [logging] after [logging.basicConfig()] in a fresh
    interpreter: one console handler on the root logger. *)
Definition after_basicConfig : Logging :=
  {| root := {| level := 30;
                handlers := [{| h_stream := Stderr; h_level := 0;
                                h_format :=
                                  "%(levelname)s:%(name)s:%(message)s" |}];
                propagate := true |};
     loggerDict := ∅; files := ∅; stderr := [] |}.

(** The log calls of the module's example, at times [t1], [t2], [t3]. *)
Definition example_calls : list (Z * string * string) :=
  [(20, "Logger is set up and ready to use!", "t1");
   (10, "This is a debug message.", "t2");
   (40, "This is an error message.", "t3")].

End Logger.

(** * Properties of the retry wrapper *)

Section RetryFacts.
Import Retry.
Context {St V : Type}.
Variable max_retries : Z.
Variables base_delay max_delay : Q.
Variable func_name : string.
Variable func : St -> St * outcome V.

Local Abbreviation loop := (loop max_retries base_delay max_delay func_name func).
Local Abbreviation wrapper :=
  (wrapper max_retries base_delay max_delay func_name func).
Local Abbreviation delay := (delay base_delay max_delay).
Local Abbreviation terminal_failure := (terminal_failure max_retries func_name).
Local Abbreviation fails_at := (fails_at func).
Local Abbreviation state_after := (state_after func).
Local Abbreviation failed_attempts :=
  (failed_attempts base_delay max_delay func_name func).

(** The lengths that [time_sleep] has slept: those from 0 to 4294967. *)
Lemma time_sleep_Slept (d : Q) :
  time_sleep d = Slept <-> (0 <= d)%Q /\ (d <= 4294967)%Q.
Proof.
  unfold time_sleep. split.
  - destruct (Qle_bool 0 d) eqn:H0.
    + destruct (Qle_bool d 4294967) eqn:H1.
      * intros _. split; apply Qle_bool_iff; assumption.
      * destruct (Qle_bool 9223372037 d); discriminate.
    + destruct (Qle_bool (-9223372036) d); [discriminate |].
      destruct (Qle_bool d (-9223372037)); discriminate.
  - intros [H0 H1]. apply Qle_bool_iff in H0, H1. rewrite H0, H1. reflexivity.
Qed.

(** The loop condition is false: the loop is left at once. *)
Lemma loop_exit fuel retries s :
  max_retries <= retries ->
  loop (S fuel) retries s = Some ([], s, Raised terminal_failure).
Proof.
  intros Hle. simpl.
  destruct (Z.ltb_spec retries max_retries) as [Hlt | _]; [lia | reflexivity].
Qed.

(** The operation returns: so does the wrapper. *)
Lemma loop_return fuel retries s v :
  retries < max_retries ->
  snd (func s) = Returned v ->
  loop (S fuel) retries s = Some ([Call], fst (func s), Returned v).
Proof.
  intros Hlt Hv. simpl.
  destruct (Z.ltb_spec retries max_retries) as [_ | Hge]; [| lia].
  destruct (func s) as [s' o]. simpl in Hv. subst o. reflexivity.
Qed.

(** The operation raises an error that [except Exception] does not catch. *)
Lemma loop_escape fuel retries s e :
  retries < max_retries ->
  snd (func s) = Raised e ->
  is_Exception e = false ->
  loop (S fuel) retries s = Some ([Call], fst (func s), Raised e).
Proof.
  intros Hlt He Hexc. simpl.
  destruct (Z.ltb_spec retries max_retries) as [_ | Hge]; [| lia].
  destruct (func s) as [s' o]. simpl in He. subst o.
  rewrite Hexc. reflexivity.
Qed.

(** The operation fails, the error is caught and the sleep goes through:
    the loop goes round with the counter incremented. *)
Lemma loop_retry fuel retries s e :
  retries < max_retries ->
  retries < 1024 ->
  snd (func s) = Raised e ->
  is_Exception e = true ->
  time_sleep (delay retries) = Slept ->
  loop (S fuel) retries s =
    match loop fuel (retries + 1) (fst (func s)) with
    | Some (tr, s', r) =>
        Some (Call :: Warning (warning_message func_name e)
                :: Sleep (delay retries) :: tr, s', r)
    | None => None
    end.
Proof.
  intros Hlt Hsmall He Hexc Hd. simpl.
  destruct (Z.ltb_spec retries max_retries) as [_ | Hge]; [| lia].
  destruct (func s) as [s' o]. simpl in He. subst o.
  rewrite Hexc.
  destruct (Z.ltb_spec retries 1024) as [_ | Hge]; [| lia].
  cbv zeta. rewrite Hd. reflexivity.
Qed.

(** The delay of a counter value is never negative when neither bound is. *)
Lemma delay_nonneg retries :
  (0 <= base_delay)%Q -> (0 <= max_delay)%Q -> (0 <= delay retries)%Q.
Proof.
  intros Hb Hm. unfold Retry.delay.
  apply Q.min_glb; [| exact Hm].
  apply Qmult_le_0_compat; [exact Hb |].
  change 0%Q with (inject_Z 0). rewrite <- Zle_Qle.
  apply Z.pow_nonneg. lia.
Qed.

(** A run of [n] failed attempts, each followed by its sleep. *)
Lemma loop_failures n : forall fuel retries s,
  (forall i, (i < n)%nat -> fails_at s i) ->
  (forall i, (i < n)%nat ->
             time_sleep (delay (retries + Z.of_nat i)) = Slept) ->
  retries + Z.of_nat n <= max_retries ->
  retries + Z.of_nat n <= 1024 ->
  loop (n + fuel) retries s =
    match loop fuel (retries + Z.of_nat n) (state_after n s) with
    | Some (tr, s', r) =>
        Some ((failed_attempts n retries s ++ tr)%list, s', r)
    | None => None
    end.
Proof.
  induction n as [| n IH]; intros fuel retries s Hfail Hdelay Hle Hsmall.
  - simpl. rewrite Z.add_0_r.
    destruct (loop fuel retries s) as [[[tr s'] r] |]; reflexivity.
  - destruct (Hfail O ltac:(lia)) as (e & He & Hexc). simpl in He.
    change (S n + fuel)%nat with (S (n + fuel)).
    rewrite (loop_retry _ _ _ e); try assumption; try lia.
    2:{ specialize (Hdelay O ltac:(lia)). simpl in Hdelay.
        rewrite Z.add_0_r in Hdelay. exact Hdelay. }
    rewrite IH.
    + replace (retries + 1 + Z.of_nat n) with (retries + Z.of_nat (S n))
        by lia.
      simpl. rewrite He.
      destruct (loop fuel _ _) as [[[tr s'] r] |]; reflexivity.
    + intros i Hi. apply (Hfail (S i)). lia.
    + intros i Hi. specialize (Hdelay (S i) ltac:(lia)).
      replace (retries + 1 + Z.of_nat i) with (retries + Z.of_nat (S i))
        by lia. exact Hdelay.
    + lia.
    + lia.
Qed.

Lemma calls_app tr1 tr2 : calls (tr1 ++ tr2) = (calls tr1 + calls tr2)%nat.
Proof.
  induction tr1 as [| [| m | d] tr1 IH]; simpl; rewrite ?IH; reflexivity.
Qed.

Lemma sleeps_app tr1 tr2 : sleeps (tr1 ++ tr2) = (sleeps tr1 ++ sleeps tr2)%list.
Proof.
  induction tr1 as [| [| m | d] tr1 IH]; simpl; rewrite ?IH; reflexivity.
Qed.

Lemma warnings_app tr1 tr2 :
  warnings (tr1 ++ tr2) = (warnings tr1 ++ warnings tr2)%list.
Proof.
  induction tr1 as [| [| m | d] tr1 IH]; simpl; rewrite ?IH; reflexivity.
Qed.

Lemma calls_failed_attempts n : forall retries s,
  (forall i, (i < n)%nat -> fails_at s i) ->
  calls (failed_attempts n retries s) = n.
Proof.
  induction n as [| n IH]; intros retries s Hfail; [reflexivity |].
  destruct (Hfail O ltac:(lia)) as (e & He & _). simpl in He.
  simpl. rewrite He. simpl. f_equal. apply IH.
  intros i Hi. apply (Hfail (S i)). lia.
Qed.

Lemma sleeps_failed_attempts n : forall retries s,
  (forall i, (i < n)%nat -> fails_at s i) ->
  sleeps (failed_attempts n retries s) =
    map (fun i => delay (retries + Z.of_nat i)) (seq 0 n).
Proof.
  induction n as [| n IH]; intros retries s Hfail; [reflexivity |].
  destruct (Hfail O ltac:(lia)) as (e & He & _). simpl in He.
  simpl. rewrite He. simpl. rewrite Z.add_0_r. f_equal.
  rewrite IH by (intros i Hi; apply (Hfail (S i)); lia).
  rewrite <- seq_shift, map_map. apply map_ext. intros i.
  f_equal. lia.
Qed.

Lemma length_warnings_failed_attempts n : forall retries s,
  (forall i, (i < n)%nat -> fails_at s i) ->
  length (warnings (failed_attempts n retries s)) = n.
Proof.
  induction n as [| n IH]; intros retries s Hfail; [reflexivity |].
  destruct (Hfail O ltac:(lia)) as (e & He & _). simpl in He.
  simpl. rewrite He. simpl. f_equal. apply IH.
  intros i Hi. apply (Hfail (S i)). lia.
Qed.



(** The wrapper gives up at once when the retry count is not positive. *)
Lemma wrapper_no_budget s :
  max_retries <= 0 ->
  wrapper s = Some ([], s, Raised terminal_failure).
Proof. intros Hle. unfold Retry.wrapper. apply loop_exit. exact Hle. Qed.

(** The delays of the first [n] counter values are slept when neither bound
    is negative and none of these delays exceeds what [time.sleep] takes. *)
Lemma delays_slept (n : nat) :
  (0 <= base_delay)%Q -> (0 <= max_delay)%Q ->
  (forall i : nat, (i < n)%nat ->
     (Qmin (base_delay * inject_Z (2 ^ Z.of_nat i)) max_delay
      <= 4294967)%Q) ->
  forall i, (i < n)%nat -> time_sleep (delay (0 + Z.of_nat i)) = Slept.
Proof.
  intros Hb Hm Hcap i Hi. apply time_sleep_Slept. split.
  - apply delay_nonneg; assumption.
  - rewrite Z.add_0_l. apply Hcap. exact Hi.
Qed.

(** The wrapper after [n] failed attempts in a row. *)
Lemma wrapper_failures n s fuel :
  (forall i, (i < n)%nat -> fails_at s i) ->
  (0 <= base_delay)%Q -> (0 <= max_delay)%Q ->
  (forall i : nat, (i < n)%nat ->
     (Qmin (base_delay * inject_Z (2 ^ Z.of_nat i)) max_delay
      <= 4294967)%Q) ->
  Z.of_nat n <= max_retries ->
  (n <= 1024)%nat ->
  S (Z.to_nat max_retries) = (n + fuel)%nat ->
  wrapper s =
    match loop fuel (Z.of_nat n) (state_after n s) with
    | Some (tr, s', r) => Some ((failed_attempts n 0 s ++ tr)%list, s', r)
    | None => None
    end.
Proof.
  intros Hfail Hb Hm Hcap Hn Hsmall Hfuel. unfold Retry.wrapper. rewrite Hfuel.
  rewrite loop_failures; [reflexivity | exact Hfail | | lia | lia].
  apply delays_slept; assumption.
Qed.





End RetryFacts.

Section RetryClaims.
Import Retry.
Context {St V : Type}.
Variables base_delay max_delay : Q.
Variable func_name : string.
Variable func : St -> St * outcome V.

Lemma state_after_S n : forall s,
  state_after func (S n) s = fst (func (state_after func n s)).
Proof.
  induction n as [| n IH]; intros s; [reflexivity |].
  change (state_after func (S (S n)) s)
    with (state_after func (S n) (fst (func s))).
  rewrite IH. reflexivity.
Qed.

(** The delays of the counter values 0, 1 and 2 are at most the third. *)
Lemma first_three_delays (i : nat) :
  (0 <= base_delay)%Q -> (i < 3)%nat ->
  (Qmin (base_delay * inject_Z (2 ^ Z.of_nat i)) max_delay
   <= Qmin (base_delay * 4) max_delay)%Q.
Proof.
  intros Hb Hi. apply Q.min_le_compat_r.
  rewrite !(Qmult_comm base_delay).
  apply Qmult_le_compat_r; [| exact Hb].
  change 4%Q with (inject_Z (2 ^ 2)). rewrite <- Zle_Qle.
  apply Z.pow_le_mono_r; lia.
Qed.

(** C1, as the code has it: with [max_retries = 3], delays that are not
    negative and the longest of which [time.sleep] takes on every platform
    (at most 4294967 seconds), and an operation that fails on every
    invocation, exactly 3 invocations occur, each followed by a sleep (3
    sleeps: one after the last failure too; they are
    [min(base_delay, max_delay)], [min(2 * base_delay, max_delay)] and
    [min(4 * base_delay, max_delay)]), and the failure raised names the
    operation and "3". *)
Theorem wrapper_three_retries_always_failing (s : St) :
  (forall n, fails_at func s n) ->
  (0 <= base_delay)%Q -> (0 <= max_delay)%Q ->
  (Qmin (base_delay * 4) max_delay <= 4294967)%Q ->
  exists tr,
    wrapper 3 base_delay max_delay func_name func s =
      Some (tr, state_after func 3 s,
            Raised (PyExc true
                      ("Function " ++ func_name ++ " failed after 3 retries.")
                      None)) /\
    calls tr = 3%nat /\
    sleeps tr = [Qmin (base_delay * 1) max_delay;
                 Qmin (base_delay * 2) max_delay;
                 Qmin (base_delay * 4) max_delay].
Proof.
  intros Hfail Hb Hm Hcap.
  exists (failed_attempts base_delay max_delay func_name func 3 0 s).
  split; [| split].
  - rewrite (wrapper_failures 3 _ _ _ _ 3 s 1);
      [| intros i _; apply Hfail | assumption | assumption | | lia | lia
       | reflexivity].
    + rewrite loop_exit by lia. rewrite app_nil_r. reflexivity.
    + intros i Hi. eapply Qle_trans; [| exact Hcap].
      apply first_three_delays; assumption.
  - apply calls_failed_attempts. intros i _. apply Hfail.
  - rewrite sleeps_failed_attempts by (intros i _; apply Hfail). reflexivity.
Qed.

(** C2, as the code has it: with [max_retries = 0] the operation is never
    invoked, nothing is slept, and the wrapper raises the failure naming the
    operation and "0" at once, whatever the operation would have done. *)
Theorem wrapper_zero_retries_never_calls (s : St) :
  wrapper 0 base_delay max_delay func_name func s =
    Some ([], s,
          Raised (PyExc true
                    ("Function " ++ func_name ++ " failed after 0 retries.")
                    None)).
Proof. apply wrapper_no_budget. lia. Qed.

Variable max_retries : Z.


(** C4, as the code has it: an operation that fails exactly [k] times and
    then succeeds, with [k < max_retries] and [k] at most 1024, makes the
    wrapper return the success value right after the successful call, having
    slept exactly [k] times, with the delays
    [min(base_delay * 2^i, max_delay)] for [i = 0 .. k-1] in order, when the
    delays are not negative and each of these [k] is a length that
    [time.sleep] takes on every platform (at most 4294967 seconds). *)
Theorem wrapper_returns_after_k_failures (s : St) (k : nat) (v : V) :
  Z.of_nat k < max_retries ->
  (forall i, (i < k)%nat -> fails_at func s i) ->
  succeeds_at func s k v ->
  (0 <= base_delay)%Q -> (0 <= max_delay)%Q ->
  (k <= 1024)%nat ->
  (forall i : nat, (i < k)%nat ->
     (Qmin (base_delay * inject_Z (2 ^ Z.of_nat i)) max_delay
      <= 4294967)%Q) ->
  exists tr,
    wrapper max_retries base_delay max_delay func_name func s =
      Some (tr, state_after func (S k) s, Returned v) /\
    calls tr = S k /\
    sleeps tr =
      map (fun i => Qmin (base_delay * inject_Z (2 ^ Z.of_nat i)) max_delay)
          (seq 0 k) /\
    last tr = Some Call.
Proof.
  intros Hk Hfail Hok Hb Hm Hsmall Hcap.
  exists (failed_attempts base_delay max_delay func_name func k 0 s
            ++ [Call])%list.
  split; [| split; [| split]].
  - rewrite (wrapper_failures _ _ _ _ _ k s (S (Z.to_nat max_retries - k)));
      [| exact Hfail | assumption | assumption | exact Hcap | lia | lia | lia].
    rewrite (loop_return _ _ _ _ _ _ _ _ v); [| exact Hk | exact Hok].
    rewrite state_after_S. reflexivity.
  - rewrite calls_app, calls_failed_attempts by exact Hfail. simpl. lia.
  - rewrite sleeps_app, sleeps_failed_attempts by exact Hfail.
    simpl. rewrite app_nil_r. reflexivity.
  - apply last_snoc.
Qed.

(** C5, as the code has it: once every attempt the budget allows has failed
    (a budget of 0 to 1024 attempts, with delays that are not negative and
    at most 4294967 seconds, which [time.sleep] takes on every platform),
    the wrapper raises a failure that identifies the operation and the retry
    count and nothing else: its text is built from the operation's name and
    [max_retries] alone, whatever the attempts raised, and no error is
    chained to it, so that it wraps none. *)
Theorem terminal_failure_names_operation_and_count (s : St) :
  (forall i : nat, Z.of_nat i < max_retries -> fails_at func s i) ->
  (0 <= base_delay)%Q -> (0 <= max_delay)%Q ->
  0 <= max_retries <= 1024 ->
  (forall i : nat, Z.of_nat i < max_retries ->
     (Qmin (base_delay * inject_Z (2 ^ Z.of_nat i)) max_delay
      <= 4294967)%Q) ->
  exists tr,
    wrapper max_retries base_delay max_delay func_name func s =
      Some (tr, state_after func (Z.to_nat max_retries) s,
            Raised (PyExc true
                      ("Function " ++ func_name ++ " failed after "
                         ++ pretty max_retries ++ " retries.")
                      None)) /\
    calls tr = Z.to_nat max_retries /\
    (forall e,
        ~ wraps (PyExc true
                   ("Function " ++ func_name ++ " failed after "
                      ++ pretty max_retries ++ " retries.")
                   None) e).
Proof.
  intros Hfail Hb Hm Hsmall Hcap.
  exists (failed_attempts base_delay max_delay func_name func
            (Z.to_nat max_retries) 0 s).
  assert (Hfail' : forall i, (i < Z.to_nat max_retries)%nat ->
                             fails_at func s i).
  { intros i Hi. apply Hfail. lia. }
  split; [| split].
  - rewrite (wrapper_failures _ _ _ _ _ (Z.to_nat max_retries) s 1);
      [| exact Hfail' | assumption | assumption | | lia | lia | lia].
    + rewrite loop_exit by lia. rewrite app_nil_r. reflexivity.
    + intros i Hi. apply Hcap. lia.
  - apply calls_failed_attempts. exact Hfail'.
  - intros e He. discriminate He.
Qed.

(** C8: for every [max_retries] that is negative or zero the loop body never
    runs: the operation is not invoked (its state is untouched), nothing is
    slept or logged, and the wrapper goes straight to the terminal failure. *)
Theorem wrapper_skips_loop_without_budget (s : St) :
  max_retries <= 0 ->
  wrapper max_retries base_delay max_delay func_name func s =
    Some ([], s, Raised (terminal_failure max_retries func_name)).
Proof. intros Hle. apply loop_exit. exact Hle. Qed.

End RetryClaims.

(** *** The claims on the sample operations *)

Lemma fetch_data_always_fails n : Retry.fails_at Retry.fetch_data O n.
Proof. exists Retry.network_error. split; reflexivity. Defined.

Lemma Qle_0_1 : (0 <= 1)%Q.
Proof. discriminate. Defined.

Lemma Qle_0_2 : (0 <= 2)%Q.
Proof. discriminate. Defined.

Lemma Qle_0_10 : (0 <= 10)%Q.
Proof. discriminate. Defined.

(** C1 as stated fails on the module's own example ([max_retries = 3],
    [base_delay = 2], [max_delay = 10]): no run has 3 attempts and 2 sleeps. *)
Lemma fetch_data_does_not_sleep_twice :
  ~ (exists tr s' e,
        Retry.wrapper 3 2 10 "fetch_data" Retry.fetch_data O
          = Some (tr, s', Retry.Raised e) /\
        Retry.calls tr = 3%nat /\ length (Retry.sleeps tr) = 2%nat).
Proof.
  intros (tr & s' & e & Hrun & _ & Hsleeps).
  vm_compute in Hrun. injection Hrun as <- _ _. discriminate Hsleeps.
Qed.

Lemma wrapper_three_retries_always_failing_witness :
  exists tr,
    Retry.wrapper 3 2 10 "fetch_data" Retry.fetch_data O =
      Some (tr, 3%nat,
            Retry.Raised
              (PyExc true "Function fetch_data failed after 3 retries." None)) /\
    Retry.calls tr = 3%nat /\
    Retry.sleeps tr = [2%Q; 4%Q; 8%Q].
Proof.
  refine (wrapper_three_retries_always_failing 2 10 "fetch_data"
            Retry.fetch_data O fetch_data_always_fails Qle_0_2 Qle_0_10 _).
  vm_compute. discriminate.
Defined.

(** C2 as stated fails on an operation that never fails: with
    [max_retries = 0] it is not invoked once, it is not invoked at all. *)
Lemma reliable_not_called_once_without_retries :
  ~ (exists tr s' r,
        Retry.wrapper 0 1 60 "reliable" Retry.reliable O = Some (tr, s', r) /\
        Retry.calls tr = 1%nat).
Proof.
  intros (tr & s' & r & Hrun & Hcalls).
  vm_compute in Hrun. injection Hrun as <- _ _. discriminate Hcalls.
Qed.



(** C4 as stated fails for delays that [time.sleep] does not accept: with
    [base_delay = max_delay = 10^10] seconds, an operation that fails once
    and then succeeds (1 < 3) never gets its second call, and the wrapper
    returns nothing. *)
Lemma flaky_long_delay_does_not_return :
  Retry.fails_at (Retry.flaky 1) O 0 /\
  Retry.succeeds_at (Retry.flaky 1) O 1 1%nat /\
  ~ (exists tr s' v,
        Retry.wrapper 3 10000000000 10000000000 "flaky" (Retry.flaky 1) O
          = Some (tr, s', Retry.Returned v)).
Proof.
  split; [exists Retry.network_error; split; reflexivity |].
  split; [reflexivity |].
  intros (tr & s' & v & Hrun). vm_compute in Hrun. discriminate Hrun.
Qed.

(** The end-to-end scenario: [base_delay = 1], [max_delay = 10],
    [max_retries = 5], failures on attempts 0 to 3, success on attempt 4. *)
Lemma wrapper_returns_after_k_failures_witness :
  exists tr,
    Retry.wrapper 5 1 10 "flaky" (Retry.flaky 4) O =
      Some (tr, 5%nat, Retry.Returned 4%nat) /\
    Retry.calls tr = 5%nat /\
    Retry.sleeps tr = [1%Q; 2%Q; 4%Q; 8%Q] /\
    last tr = Some Retry.Call.
Proof.
  refine (wrapper_returns_after_k_failures 1 10 "flaky" (Retry.flaky 4) 5
            O 4 4%nat _ _ _ Qle_0_1 Qle_0_10 _ _).
  - lia.
  - intros i Hi. exists Retry.network_error.
    do 4 (destruct i as [| i]; [split; reflexivity |]). lia.
  - reflexivity.
  - lia.
  - intros i Hi.
    do 4 (destruct i as [| i]; [vm_compute; discriminate |]). lia.
Defined.

(** C5 as stated fails on the module's own example: the failure raised after
    the third attempt neither wraps nor describes the network error. *)
Lemma fetch_data_failure_hides_cause :
  ~ (exists tr s' t,
        Retry.wrapper 3 2 10 "fetch_data" Retry.fetch_data O
          = Some (tr, s', Retry.Raised t) /\
        (Retry.wraps t Retry.network_error \/
         Retry.describes t Retry.network_error)).
Proof.
  intros (tr & s' & t & Hrun & Hcause).
  vm_compute in Hrun. injection Hrun as _ _ <-.
  destruct Hcause as [Hwraps | [n Hn]]; vm_compute in *; discriminate.
Qed.

Lemma terminal_failure_names_operation_and_count_witness :
  exists tr,
    Retry.wrapper 3 2 10 "fetch_data" Retry.fetch_data O =
      Some (tr, 3%nat,
            Retry.Raised
              (PyExc true "Function fetch_data failed after 3 retries." None)) /\
    Retry.calls tr = 3%nat /\
    (forall e,
        ~ Retry.wraps
            (PyExc true "Function fetch_data failed after 3 retries." None) e).
Proof.
  refine (terminal_failure_names_operation_and_count 2 10 "fetch_data"
            Retry.fetch_data 3 O (fun i _ => fetch_data_always_fails i)
            Qle_0_2 Qle_0_10 _ _).
  - lia.
  - intros i Hi.
    do 3 (destruct i as [| i]; [vm_compute; discriminate |]). lia.
Defined.

Lemma wrapper_skips_loop_without_budget_witness :
  Retry.wrapper (-1) 1 60 "reliable" Retry.reliable 7%nat =
    Some ([], 7%nat,
          Retry.Raised
            (PyExc true "Function reliable failed after -1 retries." None)).
Proof.
  apply (wrapper_skips_loop_without_budget 1 60 "reliable" Retry.reliable
           (-1) 7%nat).
  lia.
Defined.

(** * Properties of the configuration *)

Section ConfigFacts.
Import Config.

(** [split] never returns an empty list. *)
Lemma split_nonempty sep s : split sep s <> [].
Proof.
  destruct s as [| c rest]; simpl; [discriminate |].
  destruct (Ascii.eqb c sep); [discriminate |].
  destruct (split sep rest); discriminate.
Qed.

Lemma str_is_empty_iff s : str_is_empty s = true <-> s = "".
Proof. destruct s; simpl; split; congruence. Qed.

Lemma list_is_empty_iff {A} (l : list A) : list_is_empty l = true <-> l = [].
Proof. destruct l; simpl; split; congruence. Qed.

(** [validate] reports the first setting, in its order, that is out of
    range, with the message that starts with the setting's name. *)
Lemma validate_Err c e :
  validate c = Err e ->
  exists x rest,
    offending c x /\ e = Invalid (setting_name x ++ rest).
Proof.
  unfold validate.
  destruct (str_is_empty _) eqn:H1.
  { intros [= <-]. exists API_KEY. eexists. split; [| reflexivity].
    apply str_is_empty_iff, H1. }
  destruct (list_is_empty _) eqn:H2.
  { intros [= <-]. exists SYMBOLS. eexists. split; [| reflexivity].
    apply list_is_empty_iff, H2. }
  destruct (str_is_empty (SERVER_URL c)) eqn:H3.
  { intros [= <-]. exists SERVER. eexists. split; [| reflexivity].
    apply str_is_empty_iff, H3. }
  destruct (Z.ltb_spec (RETRY_COUNT c) 0) as [H4 | H4].
  { intros [= <-]. exists COUNT. eexists. split; [exact H4 | reflexivity]. }
  destruct (Z.ltb_spec (RETRY_DELAY c) 0) as [H5 | H5].
  { intros [= <-]. exists DELAY. eexists. split; [exact H5 | reflexivity]. }
  destruct (Z.leb_spec (POLL_INTERVAL c) 0) as [H6 | H6].
  { intros [= <-]. exists INTERVAL. eexists. split; [exact H6 | reflexivity]. }
  discriminate.
Qed.

(** [validate] succeeds only when no setting is out of range. *)
Lemma validate_Ok c :
  validate c = Ok tt -> forall x, ~ offending c x.
Proof.
  unfold validate.
  destruct (str_is_empty _) eqn:H1; [discriminate |].
  destruct (list_is_empty _) eqn:H2; [discriminate |].
  destruct (str_is_empty (SERVER_URL c)) eqn:H3; [discriminate |].
  destruct (Z.ltb_spec (RETRY_COUNT c) 0) as [H4 | H4]; [discriminate |].
  destruct (Z.ltb_spec (RETRY_DELAY c) 0) as [H5 | H5]; [discriminate |].
  destruct (Z.leb_spec (POLL_INTERVAL c) 0) as [H6 | H6]; [discriminate |].
  intros _ [] Hx; simpl in Hx.
  - apply str_is_empty_iff in Hx. congruence.
  - apply list_is_empty_iff in Hx. congruence.
  - apply str_is_empty_iff in Hx. congruence.
  - lia.
  - lia.
  - lia.
Qed.

(** [validate] always comes to a verdict. *)
Lemma validate_determined c : validate c <> Undetermined.
Proof.
  unfold validate.
  repeat (match goal with |- context [if ?b then _ else _] => destruct b end;
          [discriminate |]).
  discriminate.
Qed.

(** C6: [validate] fails exactly when the API key is empty, the symbol list
    is empty, the server URL is empty, the retry count is negative, the
    retry delay is negative, or the poll interval is not strictly positive;
    its error then names a setting that is out of range. In particular it
    fails for RETRY_COUNT=-1 and for POLL_INTERVAL=0, and it succeeds on the
    defaults. *)
Theorem validate_fails_iff_setting_out_of_range :
  (forall c : Config,
      (exists e, validate c = Err e) <->
      (ALPHA_VANTAGE_API_KEY c = "" \/ STOCK_SYMBOLS c = [] \/
       SERVER_URL c = "" \/ RETRY_COUNT c < 0 \/ RETRY_DELAY c < 0 \/
       POLL_INTERVAL c <= 0)) /\
  (forall (c : Config) e,
      validate c = Err e ->
      exists x rest, offending c x /\ e = Invalid (setting_name x ++ rest)) /\
  load_and_validate {[ "RETRY_COUNT" := "-1" ]} =
    Err (Invalid "RETRY_COUNT must be a non-negative integer.") /\
  load_and_validate {[ "POLL_INTERVAL" := "0" ]} =
    Err (Invalid "POLL_INTERVAL must be a positive integer.") /\
  load_and_validate ∅ = Ok tt.
Proof.
  split; [| split; [| split; [| split]]].
  - intros c. split.
    + intros [e He]. destruct (validate_Err c e He) as (x & rest & Hx & _).
      destruct x; simpl in Hx; tauto.
    + intros Hbad. destruct (validate c) as [[] | e |] eqn:Hv; [| eauto |].
      * exfalso. pose proof (validate_Ok c Hv) as Hok.
        destruct Hbad as [H | [H | [H | [H | [H | H]]]]].
        -- exact (Hok API_KEY H).
        -- exact (Hok SYMBOLS H).
        -- exact (Hok SERVER H).
        -- exact (Hok COUNT H).
        -- exact (Hok DELAY H).
        -- exact (Hok INTERVAL H).
      * exfalso. exact (validate_determined c Hv).
  - exact validate_Err.
  - vm_compute. reflexivity.
  - vm_compute. reflexivity.
  - vm_compute. reflexivity.
Qed.

Section Interpreter.
Variable int : string -> parsed.

(** The three ways [int(os.getenv(key, default))] ends. *)
Lemma int_getenv_cases env key d :
  (exists n, int_getenv_with int env key d = Ok n /\
             match env !! key with
             | Some v => int v = Parsed n
             | None => n = d
             end) \/
  (exists v, int_getenv_with int env key d = Err (InvalidLiteral v) /\
             env !! key = Some v /\ int v = Rejected) \/
  (exists v, int_getenv_with int env key d = Undetermined /\
             env !! key = Some v /\ int v = Unknown).
Proof.
  unfold int_getenv_with. destruct (env !! key) as [v |]; [| left; eauto].
  destruct (int v) as [n | |] eqn:Hv; [left | right; left | right; right];
    eauto.
Qed.

(** C9: when RETRY_COUNT, RETRY_DELAY or POLL_INTERVAL is set to a string
    that [int()] rejects, evaluating the class body does not produce the
    configuration, [validate] is never run and none of its errors is
    reported; and, [int()] being what decides the three strings, the class
    body fails with the [ValueError] of [int()] for one of the three
    variables, set to a string that [int()] rejects. [int] stands for the
    built-in of whatever interpreter runs the module. *)
Theorem load_rejects_invalid_integer env key v :
  integer_setting key ->
  env !! key = Some v ->
  int v = Rejected ->
  ((forall c, load_with int env <> Ok c) /\
   load_and_validate_with int env <> Ok tt /\
   (forall msg, load_and_validate_with int env <> Err (Invalid msg))) /\
  ((forall key' v', integer_setting key' -> env !! key' = Some v' ->
                    int v' <> Unknown) ->
   exists key' bad,
     integer_setting key' /\ env !! key' = Some bad /\ int bad = Rejected /\
     load_with int env = Err (InvalidLiteral bad) /\
     load_and_validate_with int env = Err (InvalidLiteral bad)).
Proof.
  intros Hkey Hv Hbad.
  assert (Hload :
    (load_with int env = Undetermined /\
     exists key' v', integer_setting key' /\ env !! key' = Some v' /\
                     int v' = Unknown) \/
    (exists key' bad,
       integer_setting key' /\ env !! key' = Some bad /\ int bad = Rejected /\
       load_with int env = Err (InvalidLiteral bad))).
  { unfold load_with, integer_setting.
    destruct (int_getenv_cases env "RETRY_COUNT" 3)
      as [(n1 & -> & H1) | [(v1 & -> & H1 & Hb1) | (v1 & -> & H1 & Hb1)]];
      simpl; [| right; eauto 10 | left; eauto 10].
    destruct (int_getenv_cases env "RETRY_DELAY" 5)
      as [(n2 & -> & H2) | [(v2 & -> & H2 & Hb2) | (v2 & -> & H2 & Hb2)]];
      simpl; [| right; eauto 10 | left; eauto 10].
    destruct (int_getenv_cases env "POLL_INTERVAL" 60)
      as [(n3 & -> & H3) | [(v3 & -> & H3 & Hb3) | (v3 & -> & H3 & Hb3)]];
      simpl; [| right; eauto 10 | left; eauto 10].
    exfalso. destruct Hkey as [-> | [-> | ->]].
    - rewrite Hv in H1. congruence.
    - rewrite Hv in H2. congruence.
    - rewrite Hv in H3. congruence. }
  split.
  - unfold load_and_validate_with.
    destruct Hload as [[-> _] | (key' & bad & _ & _ & _ & ->)]; simpl;
      repeat split; try discriminate; intros; discriminate.
  - intros Hdet.
    destruct Hload as [[_ (key' & v' & Hk' & Hv' & Hu)]
                      | (key' & bad & Hk' & Hv' & Hr & Hl)].
    + exfalso. exact (Hdet key' v' Hk' Hv' Hu).
    + exists key', bad. unfold load_and_validate_with. rewrite Hl.
      repeat split; assumption.
Qed.

End Interpreter.

Lemma load_Ok_symbols env c :
  load env = Ok c -> STOCK_SYMBOLS c = load_STOCK_SYMBOLS env.
Proof.
  unfold load, load_with. intros Hload.
  destruct (int_getenv_with py_int env "RETRY_COUNT" 3); try discriminate.
  destruct (int_getenv_with py_int env "RETRY_DELAY" 5); try discriminate.
  destruct (int_getenv_with py_int env "POLL_INTERVAL" 60); try discriminate.
  simpl in Hload. injection Hload as <-. reflexivity.
Qed.

(** C10: whatever STOCK_SYMBOLS is set to, the empty string included, the
    loaded symbol list has at least one element ([split] of the empty string
    is the list of one empty string), so [validate] never reports the
    symbol list of a loaded configuration as missing. *)
Theorem loaded_symbols_never_empty env c :
  load env = Ok c ->
  (1 <= length (STOCK_SYMBOLS c))%nat /\
  split "," "" = [""] /\
  validate c <>
    Err (Invalid "STOCK_SYMBOLS is not set in the environment variables.").
Proof.
  intros Hload.
  pose proof (load_Ok_symbols env c Hload) as Hsym.
  assert (Hne : STOCK_SYMBOLS c <> []).
  { rewrite Hsym. apply split_nonempty. }
  split; [| split].
  - destruct (STOCK_SYMBOLS c); [congruence | simpl; lia].
  - reflexivity.
  - unfold validate. destruct (str_is_empty _); [discriminate |].
    destruct (STOCK_SYMBOLS c); [congruence |]. simpl.
    destruct (str_is_empty _); [discriminate |].
    destruct (_ <? _); [discriminate |].
    destruct (_ <? _); [discriminate |].
    destruct (_ <=? _); discriminate.
Qed.

End ConfigFacts.

(** RETRY_DELAY=five, with [int()] as the embedding has it. *)
Lemma load_rejects_invalid_integer_witness :
  ((forall c, Config.load_with Config.py_int {[ "RETRY_DELAY" := "five" ]}
              <> Config.Ok c) /\
   Config.load_and_validate_with Config.py_int {[ "RETRY_DELAY" := "five" ]}
     <> Config.Ok tt /\
   (forall msg,
       Config.load_and_validate_with Config.py_int
         {[ "RETRY_DELAY" := "five" ]} <> Config.Err (Config.Invalid msg))) /\
  exists key' bad,
    Config.integer_setting key' /\
    ({[ "RETRY_DELAY" := "five" ]} : gmap string string) !! key' = Some bad /\
    Config.py_int bad = Config.Rejected /\
    Config.load_with Config.py_int {[ "RETRY_DELAY" := "five" ]}
      = Config.Err (Config.InvalidLiteral bad) /\
    Config.load_and_validate_with Config.py_int {[ "RETRY_DELAY" := "five" ]}
      = Config.Err (Config.InvalidLiteral bad).
Proof.
  destruct (load_rejects_invalid_integer Config.py_int
              {[ "RETRY_DELAY" := "five" ]} "RETRY_DELAY" "five")
    as [Hnot Herr].
  - right. left. reflexivity.
  - vm_compute. reflexivity.
  - vm_compute. reflexivity.
  - split; [exact Hnot |]. apply Herr.
    intros key' v' [-> | [-> | ->]]; vm_compute; intros [= <-];
      vm_compute; discriminate.
Defined.

Lemma loaded_symbols_never_empty_witness :
  Config.load {[ "STOCK_SYMBOLS" := "" ]} = Config.Ok Config.config_with_empty_symbols /\
  (1 <= length (Config.STOCK_SYMBOLS Config.config_with_empty_symbols))%nat /\
  Config.split "," "" = [""] /\
  Config.validate Config.config_with_empty_symbols <>
    Config.Err
      (Config.Invalid "STOCK_SYMBOLS is not set in the environment variables.").
Proof.
  split; [vm_compute; reflexivity |].
  apply (loaded_symbols_never_empty {[ "STOCK_SYMBOLS" := "" ]}).
  vm_compute. reflexivity.
Defined.

(** * Properties of the logger factory *)

Section LoggerFacts.
Import Logger.
Variable ancestors : string -> list string.
Variable can_open : string -> bool.

Local Abbreviation parents := (parents ancestors).
Local Abbreviation hasHandlers := (hasHandlers ancestors).
Local Abbreviation getEffectiveLevel := (getEffectiveLevel ancestors).
Local Abbreviation log := (log ancestors).
Local Abbreviation log_calls := (log_calls ancestors).
Local Abbreviation setup_logger := (setup_logger ancestors can_open).
Local Abbreviation acyclic := (acyclic ancestors).

Lemma ref_of_Named name n : ref_of name = Named n -> n = name.
Proof. unfold ref_of. case_decide; congruence. Qed.

Lemma omap_lookup_ext (m1 m2 : gmap string Logger) (l : list string) :
  (forall a, a ∈ l -> m1 !! a = m2 !! a) ->
  omap (fun a => m1 !! a) l = omap (fun a => m2 !! a) l.
Proof.
  induction l as [| a l IH]; intros Hext; [reflexivity |].
  assert (Htail : omap (fun a => m1 !! a) l = omap (fun a => m2 !! a) l).
  { apply IH. intros b Hb. apply Hext. set_solver. }
  simpl. rewrite (Hext a) by set_solver.
  destruct (m2 !! a); [f_equal |]; exact Htail.
Qed.

(** [getLogger] returns the reference of the name and at most registers a
    fresh logger under it. *)
Lemma getLogger_spec name st :
  exists st1,
    getLogger name st = (ref_of name, st1) /\
    registered st1 (ref_of name) /\
    get st1 (ref_of name) = get st (ref_of name) /\
    (acyclic (ref_of name) ->
     parents st1 (ref_of name) = parents st (ref_of name)) /\
    files st1 = files st /\ stderr st1 = stderr st /\
    (registered st (ref_of name) -> st1 = st).
Proof.
  unfold getLogger. destruct (ref_of name) as [| n] eqn:Href.
  - exists st. repeat split; auto.
  - destruct (loggerDict st !! n) as [l |] eqn:Hl.
    + exists st. repeat split; auto. simpl. rewrite Hl. eauto.
    + eexists. split; [reflexivity |]. simpl. repeat split.
      * rewrite lookup_insert_eq. eauto.
      * rewrite lookup_insert_eq, Hl. reflexivity.
      * intros Hn. f_equal. apply omap_lookup_ext. intros a Ha.
        apply lookup_insert_ne. intros ->. exact (Hn Ha).
      * rewrite Hl. intros [? [=]].
Qed.

Lemma get_update r f st :
  registered st r -> get (update r f st) r = f (get st r).
Proof.
  destruct r as [| n]; [reflexivity |]. simpl. intros [l Hl].
  rewrite lookup_alter_eq, Hl. reflexivity.
Qed.

Lemma registered_update r f st :
  registered st r -> registered (update r f st) r.
Proof.
  destruct r as [| n]; [trivial |]. simpl. intros [l Hl].
  rewrite lookup_alter_eq, Hl. simpl. eauto.
Qed.

Lemma parents_update r f st :
  acyclic r -> parents (update r f st) r = parents st r.
Proof.
  destruct r as [| n]; [reflexivity |]. simpl. intros Hn. f_equal.
  apply omap_lookup_ext. intros a Ha.
  apply lookup_alter_ne. intros ->. exact (Hn Ha).
Qed.

Lemma update_id r f st :
  registered st r -> f (get st r) = get st r -> update r f st = st.
Proof.
  destruct st as [rt dict fs err]. destruct r as [| n]; simpl.
  - intros _ ->. reflexivity.
  - intros [l Hl] Hf. rewrite Hl in Hf. simpl in Hf. f_equal.
    apply map_eq. intros k. destruct (decide (n = k)) as [<- | Hne].
    + rewrite lookup_alter_eq, Hl. simpl. congruence.
    + rewrite lookup_alter_ne by exact Hne. reflexivity.
Qed.

Lemma files_update r f st : files (update r f st) = files st.
Proof. destruct r; reflexivity. Qed.

Lemma stderr_update r f st : stderr (update r f st) = stderr st.
Proof. destruct r; reflexivity. Qed.

Lemma get_open_append p st r : get (open_append p st) r = get st r.
Proof. destruct r; reflexivity. Qed.

Lemma parents_open_append p st r :
  parents (open_append p st) r = parents st r.
Proof. destruct r; reflexivity. Qed.

Lemma registered_open_append p st r :
  registered st r -> registered (open_append p st) r.
Proof. destruct r; trivial. Qed.

(** Where [hasHandlers] finds nothing, [callHandlers] finds nothing. *)
Lemma chain_without_handlers chain :
  chain_hasHandlers chain = false -> chain_handlers chain = [].
Proof.
  induction chain as [| c chain IH]; [reflexivity |]. simpl.
  destruct (handlers c); [| discriminate].
  destruct (propagate c); [| reflexivity]. exact IH.
Qed.

(** Setting the level of the logger does not change what [hasHandlers]
    sees. *)
Lemma hasHandlers_setLevel lv r st :
  registered st r -> acyclic r ->
  hasHandlers (update r (setLevel lv) st) r = hasHandlers st r.
Proof.
  intros Hreg Hacyclic. unfold Logger.hasHandlers.
  rewrite get_update, parents_update by assumption. reflexivity.
Qed.

Lemma get_emit ln h st r : get (emit ln h st) r = get st r.
Proof. unfold emit. destruct (h_stream h), r; reflexivity. Qed.

Lemma parents_emit ln h st r : parents (emit ln h st) r = parents st r.
Proof. unfold emit. destruct (h_stream h), r; reflexivity. Qed.

(** A logger that already has handlers of its own: [setup_logger] sets its
    level and leaves everything else as it is. *)
Lemma setup_logger_existing name log_file level lv st :
  nameToLevel !! level = Some lv ->
  handlers (get st (ref_of name)) <> [] ->
  setup_logger name log_file level st =
    (update (ref_of name) (setLevel lv) st, inl (ref_of name)).
Proof.
  intros Hlv Hhandlers.
  assert (Hreg : registered st (ref_of name)).
  { destruct (ref_of name) as [| n]; [exact I |]. simpl in *.
    destruct (loggerDict st !! n); [eauto | contradiction]. }
  destruct (getLogger_spec name st) as (st1 & Hget & _ & _ & _ & _ & _ & Hsame).
  rewrite (Hsame Hreg) in Hget.
  unfold Logger.setup_logger. rewrite Hget, Hlv.
  assert (Hhas : hasHandlers (update (ref_of name) (setLevel lv) st)
                   (ref_of name) = true).
  { unfold Logger.hasHandlers. rewrite get_update by exact Hreg. simpl.
    destruct (handlers (get st (ref_of name))); [contradiction | reflexivity]. }
  rewrite Hhas. reflexivity.
Qed.

(** A logger without any handler on its way up: [setup_logger] sets its
    level and attaches the file handler and the console handler to it. *)
Lemma setup_logger_fresh name log_file level lv st :
  nameToLevel !! level = Some lv ->
  acyclic (ref_of name) ->
  hasHandlers st (ref_of name) = false ->
  can_open log_file = true ->
  exists st1,
    setup_logger name log_file level st = (st1, inl (ref_of name)) /\
    registered st1 (ref_of name) /\
    get st1 (ref_of name) =
      {| level := lv;
         handlers := [file_handler log_file lv; console_handler lv];
         propagate := propagate (get st (ref_of name)) |} /\
    parents st1 (ref_of name) = parents st (ref_of name) /\
    files st1 = <[log_file := default [] (files st !! log_file)]> (files st).
Proof.
  intros Hlv Hacyclic Hnone Hopen.
  destruct (getLogger_spec name st)
    as (st0 & Hget & Hreg & Hsame & Hparents & Hfiles & _ & _).
  specialize (Hparents Hacyclic).
  assert (Hnone0 : hasHandlers st0 (ref_of name) = false).
  { unfold Logger.hasHandlers. rewrite Hsame, Hparents. exact Hnone. }
  assert (Hempty : handlers (get st (ref_of name)) = []).
  { unfold Logger.hasHandlers in Hnone. simpl in Hnone.
    destruct (handlers (get st (ref_of name))); [reflexivity | discriminate]. }
  unfold Logger.setup_logger. rewrite Hget, Hlv.
  rewrite hasHandlers_setLevel by assumption. rewrite Hnone0. simpl negb.
  cbv iota. rewrite Hopen. cbv zeta.
  eexists. split; [reflexivity |].
  pose proof (registered_update _ (setLevel lv) _ Hreg) as Hreg1.
  pose proof (registered_open_append log_file _ _ Hreg1) as Hreg2.
  pose proof (registered_update _
                (addHandler (file_handler log_file lv)) _ Hreg2) as Hreg3.
  split; [apply registered_update; exact Hreg3 |].
  split; [| split].
  - fold (file_handler log_file lv). fold (console_handler lv).
    rewrite !get_update by assumption. rewrite get_open_append.
    rewrite get_update by assumption. rewrite Hsame.
    unfold addHandler, setLevel. simpl. rewrite Hempty. reflexivity.
  - rewrite !parents_update by assumption. rewrite parents_open_append.
    rewrite parents_update by assumption. exact Hparents.
  - rewrite !files_update. unfold open_append. simpl.
    rewrite files_update, Hfiles. reflexivity.
Qed.

(** An enabled log call on a logger whose way up holds exactly the two
    handlers of [setup_logger] writes one line to each. *)
Lemma log_two_handlers r log_file lv levelno msg asctime st :
  level (get st r) = lv -> lv <> 0 -> lv <= levelno ->
  chain_handlers (get st r :: parents st r) =
    [file_handler log_file lv; console_handler lv] ->
  log r levelno msg asctime st =
    emit (written r (levelno, msg, asctime)) (console_handler lv)
      (emit (written r (levelno, msg, asctime)) (file_handler log_file lv) st).
Proof.
  intros Hlevel Hset Hle Hchain. unfold Logger.log.
  assert (Heff : getEffectiveLevel st r = lv).
  { unfold Logger.getEffectiveLevel. simpl. rewrite Hlevel.
    destruct (Z.eqb_spec lv 0); [contradiction | reflexivity]. }
  rewrite Heff. destruct (Z.leb_spec lv levelno) as [_ | Hgt]; [| lia].
  rewrite Hchain. simpl.
  destruct (Z.leb_spec lv levelno) as [_ | Hgt]; [| lia]. reflexivity.
Qed.

(** A series of enabled log calls appends one line per call to the file. *)
Lemma log_calls_file r log_file lv cs : forall st,
  level (get st r) = lv -> lv <> 0 ->
  chain_handlers (get st r :: parents st r) =
    [file_handler log_file lv; console_handler lv] ->
  Forall (fun c : Z * string * string => lv <= c.1.1) cs ->
  is_Some (files st !! log_file) ->
  files (log_calls r cs st) !! log_file =
    Some (default [] (files st !! log_file) ++ map (written r) cs)%list.
Proof.
  induction cs as [| [[levelno msg] asctime] cs IH];
    intros st Hlevel Hset Hchain Hall [content Hfile].
  - simpl. rewrite Hfile. simpl. rewrite app_nil_r. reflexivity.
  - inversion Hall as [| c cs' Hc Hcs]; subst c cs'. simpl in Hc.
    unfold Logger.log_calls. simpl foldl.
    rewrite (log_two_handlers r log_file lv);
      [| assumption | assumption | assumption | assumption].
    set (st' := emit _ (console_handler _) (emit _ (file_handler _ _) st)).
    assert (Hget : get st' r = get st r).
    { unfold st'. rewrite !get_emit. reflexivity. }
    assert (Hparents : parents st' r = parents st r).
    { unfold st'. rewrite !parents_emit. reflexivity. }
    assert (Hfile' : files st' !! log_file =
                     Some (content ++ [written r (levelno, msg, asctime)])%list).
    { unfold st', emit. simpl. rewrite lookup_insert_eq, Hfile. reflexivity. }
    fold (log_calls r cs st').
    rewrite IH; [| rewrite Hget; exact Hlevel | assumption
                 | rewrite Hget, Hparents; exact Hchain | exact Hcs | eauto ].
    rewrite Hfile', Hfile. simpl. rewrite <- app_assoc. reflexivity.
Qed.

Lemma get_update_ne r0 r f st :
  r <> r0 -> get (update r0 f st) r = get st r.
Proof.
  destruct r0 as [| n], r as [| m]; simpl; try reflexivity; try congruence.
  intros Hne. rewrite lookup_alter_ne by congruence. reflexivity.
Qed.

Lemma LoggerRef_eq_dec (r1 r2 : LoggerRef) : {r1 = r2} + {r1 <> r2}.
Proof.
  destruct r1 as [| n], r2 as [| m]; try (right; discriminate);
    [left; reflexivity |].
  destruct (decide (n = m)) as [-> | Hne]; [left | right]; congruence.
Qed.

(** C7, as the code has it. For a level name that [logging] knows:
    - requesting a logger whose sink already has handlers attached gives back
      that logger with its level set to the requested one and nothing else
      changed: no handler is attached to any logger, no file and nothing on
      the console is touched, no other logger changes;
    - hence, starting where no handler is in reach of the name, with a log
      file that can be opened and a level other than NOTSET, a second
      request with the same arguments changes nothing at all, the sink holds
      one file handler and one console handler, and every log call at or
      above the level appends exactly one line to the file. *)
Theorem setup_logger_attaches_handlers_once name log_file level lv :
  nameToLevel !! level = Some lv ->
  (forall st,
      handlers (get st (ref_of name)) <> [] ->
      exists st',
        setup_logger name log_file level st = (st', inl (ref_of name)) /\
        (forall r, handlers (get st' r) = handlers (get st r)) /\
        (forall r, r <> ref_of name -> get st' r = get st r) /\
        Logger.level (get st' (ref_of name)) = lv /\
        files st' = files st /\ stderr st' = stderr st) /\
  (forall st (cs : list (Z * string * string)),
      acyclic (ref_of name) ->
      hasHandlers st (ref_of name) = false ->
      can_open log_file = true ->
      lv <> 0 ->
      Forall (fun c : Z * string * string => lv <= c.1.1) cs ->
      exists st1,
        setup_logger name log_file level st = (st1, inl (ref_of name)) /\
        setup_logger name log_file level st1 = (st1, inl (ref_of name)) /\
        handlers (get st1 (ref_of name)) =
          [file_handler log_file lv; console_handler lv] /\
        files (log_calls (ref_of name) cs st1) !! log_file =
          Some (default [] (files st !! log_file)
                  ++ map (written (ref_of name)) cs)%list).
Proof.
  intros Hlv. split.
  - intros st Hhandlers.
    assert (Hreg : registered st (ref_of name)).
    { destruct (ref_of name) as [| n]; [exact I |]. simpl in *.
      destruct (loggerDict st !! n); [eauto | contradiction]. }
    eexists. split; [apply setup_logger_existing; eassumption |].
    split; [| split; [| split; [| split]]].
    + intros r. destruct (LoggerRef_eq_dec r (ref_of name)) as [-> | Hne].
      * rewrite get_update by exact Hreg. reflexivity.
      * rewrite get_update_ne by exact Hne. reflexivity.
    + intros r Hne. apply get_update_ne. exact Hne.
    + rewrite get_update by exact Hreg. reflexivity.
    + apply files_update.
    + apply stderr_update.
  - intros st cs Hacyclic Hnone Hopen Hset Hall.
    destruct (setup_logger_fresh name log_file level lv st
                Hlv Hacyclic Hnone Hopen)
      as (st1 & Hfirst & Hreg & Hget & Hparents & Hfiles).
    exists st1. split; [exact Hfirst |].
    split; [| split].
    + rewrite (setup_logger_existing name log_file level lv st1 Hlv)
        by (rewrite Hget; discriminate).
      rewrite update_id; [reflexivity | exact Hreg |].
      rewrite Hget. reflexivity.
    + rewrite Hget. reflexivity.
    + rewrite (log_calls_file (ref_of name) log_file lv cs st1).
      * rewrite Hfiles, lookup_insert_eq. reflexivity.
      * rewrite Hget. reflexivity.
      * exact Hset.
      * rewrite Hget, Hparents. simpl. do 2 f_equal.
        unfold Logger.hasHandlers in Hnone. simpl in Hnone.
        destruct (handlers (get st (ref_of name))); [| discriminate].
        destruct (propagate (get st (ref_of name))); [| reflexivity].
        apply chain_without_handlers. exact Hnone.
      * exact Hall.
      * rewrite Hfiles, lookup_insert_eq. eauto.
Qed.

End LoggerFacts.

(** C7 as stated fails when the second request names another level: the
    logger "X", set up at INFO and so holding handlers, comes back from a
    request at DEBUG with its level changed. *)
Lemma setup_logger_resets_level :
  let setup := Logger.setup_logger Logger.dotted_ancestors (fun _ => true) in
  let st1 := (setup "X" "app.log" "INFO" Logger.initial).1 in
  Logger.handlers (Logger.get st1 (Logger.ref_of "X")) <> [] /\
  ~ (forall st2 r,
        setup "X" "app.log" "DEBUG" st1 = (st2, inl r) ->
        Logger.get st2 r = Logger.get st1 r).
Proof.
  split; [vm_compute; discriminate |].
  intros Hsame.
  specialize (Hsame _ _ eq_refl). vm_compute in Hsame. discriminate Hsame.
Qed.

Lemma setup_logger_attaches_handlers_once_witness :
  let setup := Logger.setup_logger Logger.dotted_ancestors (fun _ => true) in
  let calls := [(20, "Logger is set up and ready to use!", "t1");
                (40, "This is an error message.", "t2")] in
  exists st1,
    setup "X" "app.log" "INFO" Logger.initial = (st1, inl (Logger.Named "X")) /\
    setup "X" "app.log" "INFO" st1 = (st1, inl (Logger.Named "X")) /\
    Logger.handlers (Logger.get st1 (Logger.Named "X")) =
      [Logger.file_handler "app.log" 20; Logger.console_handler 20] /\
    Logger.files
      (Logger.log_calls Logger.dotted_ancestors (Logger.Named "X") calls st1)
      !! "app.log" =
      Some (map (Logger.written (Logger.Named "X")) calls).
Proof.
  refine (proj2 (setup_logger_attaches_handlers_once
                   Logger.dotted_ancestors (fun _ => true)
                   "X" "app.log" "INFO" 20 _) Logger.initial _ _ _ _ _ _).
  - vm_compute. reflexivity.
  - vm_compute. intros H. inversion H.
  - vm_compute. reflexivity.
  - reflexivity.
  - discriminate.
  - repeat constructor; simpl; lia.
Defined.

(** * Further properties of the retry wrapper *)

Section RetryRuns.
Import Retry.
Context {St V : Type}.
Variable max_retries : Z.
Variables base_delay max_delay : Q.
Variable func_name : string.
Variable func : St -> St * outcome V.

Local Abbreviation loop' :=
  (loop max_retries base_delay max_delay func_name func).
Local Abbreviation wrapper' :=
  (wrapper max_retries base_delay max_delay func_name func).



(** X3: an error that is not an [Exception] (a keyboard interrupt, a
    system exit) is not retried: raised by attempt [k < max_retries] after
    [k] caught failures whose delays were slept ([k] at most 1024, delays
    not negative and at most 4294967 seconds), it leaves the wrapper as
    it is, right after that invocation, with no warning and no sleep for
    it. *)
Theorem wrapper_propagates_uncaught (s : St) (k : nat) (e : py_exc) :
  Z.of_nat k < max_retries ->
  (forall i, (i < k)%nat -> fails_at func s i) ->
  snd (func (state_after func k s)) = Raised e ->
  is_Exception e = false ->
  (0 <= base_delay)%Q -> (0 <= max_delay)%Q ->
  (k <= 1024)%nat ->
  (forall i : nat, (i < k)%nat ->
     (Qmin (base_delay * inject_Z (2 ^ Z.of_nat i)) max_delay
      <= 4294967)%Q) ->
  exists tr,
    wrapper' s = Some (tr, state_after func (S k) s, Raised e) /\
    calls tr = S k /\ length (sleeps tr) = k /\ length (warnings tr) = k /\
    last tr = Some Call.
Proof.
  intros Hk Hfail He Hexc Hb Hm Hsmall Hcap.
  exists (failed_attempts base_delay max_delay func_name func k 0 s
            ++ [Call])%list.
  split; [| split; [| split; [| split]]].
  - rewrite (wrapper_failures _ _ _ _ _ k s (S (Z.to_nat max_retries - k)));
      [| exact Hfail | assumption | assumption | exact Hcap | lia | lia | lia].
    rewrite (loop_escape _ _ _ _ _ _ _ _ e); [| exact Hk | exact He | exact Hexc].
    rewrite <- state_after_S. reflexivity.
  - rewrite calls_app, calls_failed_attempts by exact Hfail. simpl. lia.
  - rewrite sleeps_app, sleeps_failed_attempts by exact Hfail.
    simpl. rewrite app_nil_r, length_map, length_seq. reflexivity.
  - rewrite warnings_app, length_app, length_warnings_failed_attempts
      by exact Hfail.
    simpl. lia.
  - apply last_snoc.
Qed.

(** The first sleep is refused as negative when one of the two bounds is
    negative and neither is below -9223372036. *)
Lemma first_delay_negative :
  (base_delay < 0 \/ max_delay < 0)%Q ->
  (-9223372036 <= base_delay)%Q -> (-9223372036 <= max_delay)%Q ->
  time_sleep (delay base_delay max_delay 0) = Negative.
Proof.
  intros Hneg Hb Hm. unfold time_sleep.
  assert (Hd : (delay base_delay max_delay 0 == Qmin base_delay max_delay)%Q).
  { unfold delay. simpl. rewrite Qmult_1_r. reflexivity. }
  assert (H0 : Qle_bool 0 (delay base_delay max_delay 0) = false).
  { apply not_true_is_false. intros Hle. apply Qle_bool_iff in Hle.
    rewrite Hd in Hle. destruct Hneg as [H | H].
    - apply (Qlt_not_le _ _ H). eapply Qle_trans; [exact Hle |].
      apply Q.le_min_l.
    - apply (Qlt_not_le _ _ H). eapply Qle_trans; [exact Hle |].
      apply Q.le_min_r. }
  assert (H1 : Qle_bool (-9223372036) (delay base_delay max_delay 0) = true).
  { apply Qle_bool_iff. rewrite Hd. apply Q.min_glb; assumption. }
  rewrite H0, H1. reflexivity.
Qed.

(** X4: with a negative [base_delay] or [max_delay], neither below
    -9223372036 seconds, the wrapper cannot retry at all: after the first
    failed attempt [time.sleep] refuses the negative length, and the wrapper
    ends with that [ValueError], chained to the operation's error, after one
    invocation, one warning and no sleep. *)
Theorem wrapper_negative_delay_aborts (s : St) (e : py_exc) :
  0 < max_retries ->
  snd (func s) = Raised e ->
  is_Exception e = true ->
  (base_delay < 0 \/ max_delay < 0)%Q ->
  (-9223372036 <= base_delay)%Q -> (-9223372036 <= max_delay)%Q ->
  wrapper' s =
    Some ([Call;
           Warning ("Retrying " ++ func_name ++ " due to error: " ++ message e)],
          fst (func s),
          Raised (PyExc true "sleep length must be non-negative" (Some e))).
Proof.
  intros Hpos He Hexc Hneg Hb Hm. unfold wrapper. simpl.
  destruct (Z.ltb_spec 0 max_retries) as [_ | Hge]; [| lia].
  destruct (func s) as [s1 o]. simpl in He. subst o.
  rewrite Hexc. cbv zeta. rewrite (first_delay_negative Hneg Hb Hm).
  reflexivity.
Qed.

(** The first sleep is refused as too large when its length,
    [min(base_delay, max_delay)], is 9223372037 seconds or more in size. *)
Lemma first_delay_too_large :
  (9223372037 <= Qmin base_delay max_delay
   \/ Qmin base_delay max_delay <= -9223372037)%Q ->
  time_sleep (delay base_delay max_delay 0) = TooLarge.
Proof.
  intros Hsize. unfold time_sleep.
  assert (Hd : (delay base_delay max_delay 0 == Qmin base_delay max_delay)%Q).
  { unfold delay. simpl. rewrite Qmult_1_r. reflexivity. }
  assert (Hfalse : forall a b c : Q,
            (a <= b)%Q -> (b <= c)%Q -> Qle_bool a c = false -> False).
  { intros a b c Hab Hbc Hac.
    pose proof (Qle_trans _ _ _ Hab Hbc) as Hle.
    apply Qle_bool_iff in Hle. congruence. }
  destruct Hsize as [Hbig | Hsmall].
  - rewrite <- Hd in Hbig.
    assert (H0 : Qle_bool 0 (delay base_delay max_delay 0) = true).
    { apply Qle_bool_iff. eapply Qle_trans; [| exact Hbig]. discriminate. }
    assert (H1 : Qle_bool (delay base_delay max_delay 0) 4294967 = false).
    { apply not_true_is_false. intros Hle. apply Qle_bool_iff in Hle.
      apply (Hfalse _ _ _ Hbig Hle). reflexivity. }
    assert (H2 : Qle_bool 9223372037 (delay base_delay max_delay 0) = true).
    { apply Qle_bool_iff. exact Hbig. }
    rewrite H0, H1, H2. reflexivity.
  - rewrite <- Hd in Hsmall.
    assert (H0 : Qle_bool 0 (delay base_delay max_delay 0) = false).
    { apply not_true_is_false. intros Hle. apply Qle_bool_iff in Hle.
      apply (Hfalse _ _ _ Hle Hsmall). reflexivity. }
    assert (H1 : Qle_bool (-9223372036) (delay base_delay max_delay 0)
                 = false).
    { apply not_true_is_false. intros Hle. apply Qle_bool_iff in Hle.
      apply (Hfalse _ _ _ Hle Hsmall). reflexivity. }
    assert (H2 : Qle_bool (delay base_delay max_delay 0) (-9223372037)
                 = true).
    { apply Qle_bool_iff. exact Hsmall. }
    rewrite H0, H1, H2. reflexivity.
Qed.

(** X22: when the first delay, [min(base_delay, max_delay)], is 9223372037
    seconds or more in size, positive or negative, the wrapper cannot retry
    at all: after the first failed attempt [time.sleep] refuses the length
    for being too large, and the wrapper ends with that error, chained to
    the operation's error, after one invocation, one warning and no
    sleep. *)
Theorem wrapper_long_delay_aborts (s : St) (e : py_exc) :
  0 < max_retries ->
  snd (func s) = Raised e ->
  is_Exception e = true ->
  (9223372037 <= Qmin base_delay max_delay
   \/ Qmin base_delay max_delay <= -9223372037)%Q ->
  exists err,
    wrapper' s =
      Some ([Call;
             Warning ("Retrying " ++ func_name ++ " due to error: "
                        ++ message e)],
            fst (func s), Raised err) /\
    is_Exception err = true /\ context err = Some e.
Proof.
  intros Hpos He Hexc Hsize. exists (overflow_error e).
  split; [| split; reflexivity].
  unfold wrapper. simpl.
  destruct (Z.ltb_spec 0 max_retries) as [_ | Hge]; [| lia].
  destruct (func s) as [s1 o]. simpl in He. subst o.
  rewrite Hexc. cbv zeta. rewrite (first_delay_too_large Hsize).
  reflexivity.
Qed.




End RetryRuns.

Section DelaySchedule.
Import Retry.
Variables base_delay max_delay : Q.

Lemma scaled_le (i j : Z) :
  (0 <= base_delay)%Q -> 0 <= i <= j ->
  (base_delay * inject_Z (2 ^ i) <= base_delay * inject_Z (2 ^ j))%Q.
Proof.
  intros Hb Hij. rewrite !(Qmult_comm base_delay).
  apply Qmult_le_compat_r; [| exact Hb].
  rewrite <- Zle_Qle. apply Z.pow_le_mono_r; lia.
Qed.

(** X7: for a non-negative [base_delay] the delays never decrease from one
    attempt to the next, and none exceeds [max_delay]. *)
Theorem delay_monotone_and_capped (i j : Z) :
  (0 <= base_delay)%Q -> 0 <= i <= j ->
  (delay base_delay max_delay i <= delay base_delay max_delay j)%Q /\
  (delay base_delay max_delay j <= max_delay)%Q.
Proof.
  intros Hb Hij. split; [| apply Q.le_min_r].
  unfold delay. apply Q.min_le_compat_r. apply scaled_le; assumption.
Qed.

(** X8: below the cap the delay doubles exactly from one attempt to the
    next; from the first attempt whose doubled delay reaches [max_delay]
    on, every delay is [max_delay]. *)
Theorem delay_doubles_until_cap (i : Z) :
  (0 <= base_delay)%Q -> 0 <= i ->
  ((base_delay * inject_Z (2 ^ (i + 1)) <= max_delay)%Q ->
   (delay base_delay max_delay (i + 1)
    == 2 * delay base_delay max_delay i)%Q) /\
  ((max_delay <= base_delay * inject_Z (2 ^ i))%Q ->
   forall j, i <= j -> (delay base_delay max_delay j == max_delay)%Q).
Proof.
  intros Hb Hi. split.
  - intros Hcap. unfold delay.
    rewrite (Q.min_l _ _ Hcap).
    rewrite Q.min_l
      by (eapply Qle_trans; [apply (scaled_le i (i + 1)); [assumption | lia]
                            | exact Hcap]).
    rewrite Z.pow_add_r, Z.pow_1_r, Z.mul_comm, inject_Z_mult by lia.
    ring.
  - intros Hcap j Hj. unfold delay. apply Q.min_r.
    eapply Qle_trans; [exact Hcap |]. apply scaled_le; [assumption | lia].
Qed.

End DelaySchedule.

(** *** The further properties on the sample operations *)



Lemma wrapper_propagates_uncaught_witness :
  exists tr,
    Retry.wrapper 5 1 10 "interrupted" (Retry.interrupted 2) O
      = Some (tr, 3%nat, Retry.Raised Retry.keyboard_interrupt) /\
    Retry.calls tr = 3%nat /\ length (Retry.sleeps tr) = 2%nat /\
    length (Retry.warnings tr) = 2%nat /\
    last tr = Some Retry.Call.
Proof.
  refine (wrapper_propagates_uncaught 5 1 10 "interrupted"
            (Retry.interrupted 2) O 2 Retry.keyboard_interrupt
            _ _ _ _ Qle_0_1 Qle_0_10 _ _).
  - lia.
  - intros i Hi. exists Retry.network_error.
    do 2 (destruct i as [| i]; [split; reflexivity |]). lia.
  - reflexivity.
  - reflexivity.
  - lia.
  - intros i Hi.
    do 2 (destruct i as [| i]; [vm_compute; discriminate |]). lia.
Defined.

Lemma wrapper_negative_delay_aborts_witness :
  Retry.wrapper 3 (-1) 10 "fetch_data" Retry.fetch_data O =
    Some ([Retry.Call;
           Retry.Warning
             "Retrying fetch_data due to error: Simulated network error"],
          1%nat,
          Retry.Raised
            (PyExc true "sleep length must be non-negative"
               (Some Retry.network_error))).
Proof.
  refine (wrapper_negative_delay_aborts 3 (-1) 10 "fetch_data"
            Retry.fetch_data O Retry.network_error _ _ _ _ _ _).
  - lia.
  - reflexivity.
  - reflexivity.
  - left. reflexivity.
  - vm_compute. discriminate.
  - vm_compute. discriminate.
Defined.

Lemma wrapper_long_delay_aborts_witness :
  exists err,
    Retry.wrapper 3 10000000000 10000000000 "fetch_data" Retry.fetch_data O =
      Some ([Retry.Call;
             Retry.Warning
               "Retrying fetch_data due to error: Simulated network error"],
            1%nat, Retry.Raised err) /\
    is_Exception err = true /\ context err = Some Retry.network_error.
Proof.
  refine (wrapper_long_delay_aborts 3 10000000000 10000000000 "fetch_data"
            Retry.fetch_data O Retry.network_error _ _ _ _).
  - lia.
  - reflexivity.
  - reflexivity.
  - left. vm_compute. discriminate.
Defined.



Lemma delay_monotone_and_capped_witness :
  (Retry.delay 1 10 1 <= Retry.delay 1 10 5)%Q /\
  (Retry.delay 1 10 5 <= 10)%Q.
Proof.
  apply (delay_monotone_and_capped 1 10 1 5 Qle_0_1). lia.
Defined.

Lemma delay_doubles_until_cap_witness :
  (Retry.delay 1 10 3 == 2 * Retry.delay 1 10 2)%Q /\
  (forall j, 4 <= j -> (Retry.delay 1 10 j == 10)%Q).
Proof.
  split.
  - apply (delay_doubles_until_cap 1 10 2 Qle_0_1); [lia | discriminate].
  - apply (delay_doubles_until_cap 1 10 4 Qle_0_1); [lia | discriminate].
Defined.

(** * Further properties of the configuration *)

Section ConfigMore.
Import Config.

Section AnyInterpreter.
Variable int : string -> parsed.

(** X9: evaluating the class body fails only on an integer setting that is
    set to a string [int()] rejects, and then reports that string; it
    succeeds exactly when each of RETRY_COUNT, RETRY_DELAY and POLL_INTERVAL
    is unset or set to a string that [int()] converts, whatever the other
    variables hold. [int] stands for the built-in of whatever interpreter
    runs the module. *)
Theorem load_fails_only_on_invalid_integer (env : gmap string string) :
  ((exists c, load_with int env = Ok c) <->
   (forall key v, integer_setting key -> env !! key = Some v ->
                  exists n, int v = Parsed n)) /\
  (forall e, load_with int env = Err e ->
     exists key v, integer_setting key /\ env !! key = Some v /\
                   int v = Rejected /\ e = InvalidLiteral v).
Proof.
  unfold load_with, integer_setting.
  destruct (int_getenv_cases int env "RETRY_COUNT" 3)
    as [(n1 & -> & H1) | [(v1 & -> & H1 & Hb1) | (v1 & -> & H1 & Hb1)]];
    simpl.
  2,3: split;
    [ split; [intros [c [=]] |]; intros Hall;
      destruct (Hall _ _ (or_introl eq_refl) H1) as [n Hn]; congruence
    | intros e [= <-]; exists "RETRY_COUNT", v1; auto ].
  destruct (int_getenv_cases int env "RETRY_DELAY" 5)
    as [(n2 & -> & H2) | [(v2 & -> & H2 & Hb2) | (v2 & -> & H2 & Hb2)]];
    simpl.
  2,3: split;
    [ split; [intros [c [=]] |]; intros Hall;
      destruct (Hall _ _ (or_intror (or_introl eq_refl)) H2) as [n Hn];
      congruence
    | intros e [= <-]; exists "RETRY_DELAY", v2; auto ].
  destruct (int_getenv_cases int env "POLL_INTERVAL" 60)
    as [(n3 & -> & H3) | [(v3 & -> & H3 & Hb3) | (v3 & -> & H3 & Hb3)]];
    simpl.
  2,3: split;
    [ split; [intros [c [=]] |]; intros Hall;
      destruct (Hall _ _ (or_intror (or_intror eq_refl)) H3) as [n Hn];
      congruence
    | intros e [= <-]; exists "POLL_INTERVAL", v3; auto ].
  split; [| intros e [=]].
  split; [| eauto].
  intros _ key v [-> | [-> | ->]] Hv.
  - rewrite Hv in H1. eauto.
  - rewrite Hv in H2. eauto.
  - rewrite Hv in H3. eauto.
Qed.

Lemma getenv_empty env key d :
  d <> "" -> (getenv env key d = "" <-> env !! key = Some "").
Proof.
  unfold getenv. intros Hd. destruct (env !! key) as [v |]; split;
    congruence.
Qed.

(** X11: loading and validating succeeds exactly when
    ALPHA_VANTAGE_API_KEY and SERVER_URL are not set to the empty string
    (unset, they take their defaults) and each of RETRY_COUNT, RETRY_DELAY
    and POLL_INTERVAL is unset or set to a string that [int()] converts to
    an integer in range (non-negative, non-negative, strictly positive).
    STOCK_SYMBOLS, LOG_LEVEL and ALPHA_VANTAGE_BASE_URL never make it fail.
    [int] stands for the built-in of whatever interpreter runs the module. *)
Theorem load_and_validate_succeeds_iff (env : gmap string string) :
  load_and_validate_with int env = Ok tt <->
  env !! "ALPHA_VANTAGE_API_KEY" <> Some "" /\
  env !! "SERVER_URL" <> Some "" /\
  (forall v, env !! "RETRY_COUNT" = Some v ->
             exists n, int v = Parsed n /\ 0 <= n) /\
  (forall v, env !! "RETRY_DELAY" = Some v ->
             exists n, int v = Parsed n /\ 0 <= n) /\
  (forall v, env !! "POLL_INTERVAL" = Some v ->
             exists n, int v = Parsed n /\ 0 < n).
Proof.
  unfold load_and_validate_with, load_with.
  destruct (int_getenv_cases int env "RETRY_COUNT" 3)
    as [(n1 & -> & H1) | [(v1 & -> & H1 & Hb1) | (v1 & -> & H1 & Hb1)]];
    simpl.
  2,3: split; [discriminate |]; intros (_ & _ & Hc & _);
       destruct (Hc _ H1) as (n & Hn & _); congruence.
  destruct (int_getenv_cases int env "RETRY_DELAY" 5)
    as [(n2 & -> & H2) | [(v2 & -> & H2 & Hb2) | (v2 & -> & H2 & Hb2)]];
    simpl.
  2,3: split; [discriminate |]; intros (_ & _ & _ & Hd & _);
       destruct (Hd _ H2) as (n & Hn & _); congruence.
  destruct (int_getenv_cases int env "POLL_INTERVAL" 60)
    as [(n3 & -> & H3) | [(v3 & -> & H3 & Hb3) | (v3 & -> & H3 & Hb3)]];
    simpl.
  2,3: split; [discriminate |]; intros (_ & _ & _ & _ & Hp);
       destruct (Hp _ H3) as (n & Hn & _); congruence.
  unfold validate. simpl.
  pose proof (getenv_empty env "ALPHA_VANTAGE_API_KEY" "your_default_api_key"
                ltac:(discriminate)) as Hkey.
  pose proof (getenv_empty env "SERVER_URL"
                "http://localhost:8000/api/v1/stocks" ltac:(discriminate))
    as Hurl.
  rewrite <- str_is_empty_iff in Hkey, Hurl.
  pose proof (split_nonempty "," (getenv env "STOCK_SYMBOLS"
                                    "AAPL,GOOGL,MSFT,AMZN,TSLA")) as Hsym.
  unfold load_STOCK_SYMBOLS.
  destruct (split _ _) as [| sym syms]; [contradiction |]. simpl.
  destruct (str_is_empty (getenv env "ALPHA_VANTAGE_API_KEY" _)).
  { split; [discriminate |]. intros (Hk & _). exfalso. apply Hk, Hkey.
    reflexivity. }
  destruct (str_is_empty (getenv env "SERVER_URL" _)).
  { split; [discriminate |]. intros (_ & Hu & _). exfalso. apply Hu, Hurl.
    reflexivity. }
  assert (Hk : env !! "ALPHA_VANTAGE_API_KEY" <> Some "").
  { intros Heq. apply Hkey in Heq. discriminate. }
  assert (Hu : env !! "SERVER_URL" <> Some "").
  { intros Heq. apply Hurl in Heq. discriminate. }
  destruct (Z.ltb_spec n1 0) as [Hn1 | Hn1].
  { split; [discriminate |]. intros (_ & _ & Hc & _).
    destruct (env !! "RETRY_COUNT") as [v |]; [| lia].
    destruct (Hc v eq_refl) as (n & Hn & Hpos).
    assert (n = n1) by congruence. lia. }
  destruct (Z.ltb_spec n2 0) as [Hn2 | Hn2].
  { split; [discriminate |]. intros (_ & _ & _ & Hd & _).
    destruct (env !! "RETRY_DELAY") as [v |]; [| lia].
    destruct (Hd v eq_refl) as (n & Hn & Hpos).
    assert (n = n2) by congruence. lia. }
  destruct (Z.leb_spec n3 0) as [Hn3 | Hn3].
  { split; [discriminate |]. intros (_ & _ & _ & _ & Hp).
    destruct (env !! "POLL_INTERVAL") as [v |]; [| lia].
    destruct (Hp v eq_refl) as (n & Hn & Hpos).
    assert (n = n3) by congruence. lia. }
  split; [| reflexivity]. intros _.
  split; [exact Hk |]. split; [exact Hu |].
  split; [| split]; intros v Hv; rewrite Hv in *; eauto.
Qed.

End AnyInterpreter.

(** X10: [validate] reports the first setting, in the order of its checks,
    that is out of range: it raises the message of a setting exactly when
    that setting is out of range and none of those checked before it is. *)
Theorem validate_reports_first_offending (c : Config) (x : setting) :
  validate c = Err (Invalid (validation_message x)) <->
  offending c x /\ forall y, (rank y < rank x)%nat -> ~ offending c y.
Proof.
  unfold validate.
  destruct (str_is_empty (ALPHA_VANTAGE_API_KEY c)) eqn:H1.
  { apply str_is_empty_iff in H1. split.
    - intros Hx. destruct x; try discriminate Hx.
      split; [exact H1 | simpl; intros y Hy; lia].
    - intros [Hx Hfirst]. destruct x; try reflexivity;
        exfalso; apply (Hfirst API_KEY); simpl; (lia || exact H1). }
  assert (N1 : ~ offending c API_KEY).
  { simpl. rewrite <- str_is_empty_iff. congruence. }
  destruct (list_is_empty (STOCK_SYMBOLS c)) eqn:H2.
  { apply list_is_empty_iff in H2. split.
    - intros Hx. destruct x; try discriminate Hx.
      split; [exact H2 |]. intros [] Hy; simpl in Hy; try lia. exact N1.
    - intros [Hx Hfirst]. destruct x; try reflexivity;
        try (exfalso; apply (Hfirst SYMBOLS); simpl; (lia || exact H2)).
      contradiction. }
  assert (N2 : ~ offending c SYMBOLS).
  { simpl. rewrite <- list_is_empty_iff. congruence. }
  destruct (str_is_empty (SERVER_URL c)) eqn:H3.
  { apply str_is_empty_iff in H3. split.
    - intros Hx. destruct x; try discriminate Hx.
      split; [exact H3 |]. intros [] Hy; simpl in Hy; try lia; assumption.
    - intros [Hx Hfirst]. destruct x; try reflexivity;
        try (exfalso; apply (Hfirst SERVER); simpl; (lia || exact H3));
        contradiction. }
  assert (N3 : ~ offending c SERVER).
  { simpl. rewrite <- str_is_empty_iff. congruence. }
  destruct (Z.ltb_spec (RETRY_COUNT c) 0) as [H4 | H4].
  { split.
    - intros Hx. destruct x; try discriminate Hx.
      split; [exact H4 |]. intros [] Hy; simpl in Hy; try lia; assumption.
    - intros [Hx Hfirst]. destruct x; try reflexivity;
        try (exfalso; apply (Hfirst COUNT); simpl; (lia || exact H4));
        contradiction. }
  assert (N4 : ~ offending c COUNT) by (simpl; lia).
  destruct (Z.ltb_spec (RETRY_DELAY c) 0) as [H5 | H5].
  { split.
    - intros Hx. destruct x; try discriminate Hx.
      split; [exact H5 |]. intros [] Hy; simpl in Hy; try lia; assumption.
    - intros [Hx Hfirst]. destruct x; try reflexivity;
        try (exfalso; apply (Hfirst DELAY); simpl; (lia || exact H5));
        contradiction. }
  assert (N5 : ~ offending c DELAY) by (simpl; lia).
  destruct (Z.leb_spec (POLL_INTERVAL c) 0) as [H6 | H6].
  { split.
    - intros Hx. destruct x; try discriminate Hx.
      split; [exact H6 |]. intros [] Hy; simpl in Hy; try lia; assumption.
    - intros [Hx Hfirst]. destruct x; try reflexivity; contradiction. }
  split; [discriminate |].
  intros [Hx _]. destruct x; try contradiction. simpl in Hx. lia.
Qed.

(** [",".join] undoes [split(",")]. *)
Lemma concat_split sep s :
  String.concat (String sep "") (split sep s) = s.
Proof.
  induction s as [| c rest IH]; [reflexivity |]. simpl.
  pose proof (split_nonempty sep rest) as Hne.
  destruct (Ascii.eqb_spec c sep) as [-> | Hc].
  - destruct (split sep rest) as [| piece pieces]; [contradiction |].
    rewrite <- IH. reflexivity.
  - destruct (split sep rest) as [| piece pieces]; [contradiction |].
    rewrite <- IH. destruct pieces; reflexivity.
Qed.

Lemma length_split sep s : length (split sep s) = S (count_char sep s).
Proof.
  induction s as [| c rest IH]; [reflexivity |]. simpl.
  pose proof (split_nonempty sep rest) as Hne.
  destruct (Ascii.eqb c sep).
  - simpl. rewrite IH. reflexivity.
  - destruct (split sep rest) as [| piece pieces]; [contradiction |].
    simpl in *. exact IH.
Qed.

Lemma split_pieces_clean sep s :
  Forall (fun piece => count_char sep piece = O) (split sep s).
Proof.
  induction s as [| c rest IH]; [repeat constructor |]. simpl.
  destruct (Ascii.eqb c sep) eqn:Hc.
  - constructor; [reflexivity | exact IH].
  - destruct (split sep rest) as [| piece pieces]; [repeat constructor |].
    + simpl. rewrite Hc. reflexivity.
    + inversion IH as [| ? ? Hpiece Hpieces]; subst.
      constructor; [| exact Hpieces]. simpl. rewrite Hc. exact Hpiece.
Qed.

(** X12: the symbol list is the value of STOCK_SYMBOLS cut at its commas
    and nothing else: joining the loaded symbols with commas gives the
    variable back, there is one symbol more than there are commas, and no
    symbol contains a comma (symbols are neither trimmed nor dropped when
    empty). *)
Theorem loaded_symbols_round_trip (env : gmap string string) c v :
  load env = Ok c ->
  env !! "STOCK_SYMBOLS" = Some v ->
  String.concat "," (STOCK_SYMBOLS c) = v /\
  length (STOCK_SYMBOLS c) = S (count_char "," v) /\
  Forall (fun symbol => count_char "," symbol = O) (STOCK_SYMBOLS c).
Proof.
  intros Hload Hv. rewrite (load_Ok_symbols _ _ Hload).
  unfold load_STOCK_SYMBOLS, getenv. rewrite Hv.
  split; [apply concat_split |].
  split; [apply length_split | apply split_pieces_clean].
Qed.

End ConfigMore.

Lemma loaded_symbols_round_trip_witness :
  exists c,
    Config.load {[ "STOCK_SYMBOLS" := "AAPL, ,MSFT," ]} = Config.Ok c /\
    Config.STOCK_SYMBOLS c = ["AAPL"; " "; "MSFT"; ""] /\
    String.concat "," (Config.STOCK_SYMBOLS c) = "AAPL, ,MSFT," /\
    length (Config.STOCK_SYMBOLS c) = 4%nat /\
    Forall (fun symbol => Config.count_char "," symbol = O)
           (Config.STOCK_SYMBOLS c).
Proof.
  eexists. split; [vm_compute; reflexivity |].
  split; [reflexivity |].
  apply (loaded_symbols_round_trip {[ "STOCK_SYMBOLS" := "AAPL, ,MSFT," ]}).
  - vm_compute. reflexivity.
  - vm_compute. reflexivity.
Defined.

(** * Integers written in decimal are read back *)

Section DecimalRoundTrip.
Import Config.

Lemma lstrip_nospace s : nospace s = true -> lstrip s = s.
Proof.
  destruct s as [| c rest]; [reflexivity |]. simpl.
  destruct (is_space c); [discriminate | reflexivity].
Qed.

Lemma nospace_rev_app s1 : forall s2,
  nospace (String.rev_app s1 s2) = nospace s1 && nospace s2.
Proof.
  induction s1 as [| c s1 IH]; intros s2; [reflexivity |]. simpl.
  rewrite IH. simpl. destruct (is_space c), (nospace s1); reflexivity.
Qed.

Lemma rev_app_rev_app s1 : forall s2 s3,
  String.rev_app (String.rev_app s1 s2) s3 = String.rev_app s2 (s1 ++ s3).
Proof.
  induction s1 as [| c s1 IH]; intros s2 s3; [reflexivity |].
  change (String.rev_app (String.rev_app s1 (String c s2)) s3
          = String.rev_app s2 (String c (s1 ++ s3))).
  rewrite IH. reflexivity.
Qed.

Lemma append_empty_r s : s ++ "" = s.
Proof.
  induction s as [| c s IH]; [reflexivity |].
  change (String c (s ++ "") = String c s). f_equal. exact IH.
Qed.

(** [strip] leaves a string without whitespace alone. *)
Lemma strip_nospace s : nospace s = true -> strip s = s.
Proof.
  intros Hs. unfold strip. rewrite (lstrip_nospace s Hs).
  rewrite lstrip_nospace.
  - unfold String.rev. rewrite rev_app_rev_app. simpl. apply append_empty_r.
  - unfold String.rev. rewrite nospace_rev_app, Hs. reflexivity.
Qed.

Lemma digit_of_pretty_N_char (d : N) :
  (d < 10)%N -> digit_of (pretty_N_char d) = Some (Z.of_N d).
Proof.
  intros Hd. destruct d as [| p]; [reflexivity |].
  do 4 (try destruct p as [p | p |]); try reflexivity; lia.
Qed.

Lemma is_space_pretty_N_char (d : N) : is_space (pretty_N_char d) = false.
Proof. unfold pretty_N_char. repeat case_match; reflexivity. Qed.

Lemma ascii_pretty_N_char (d : N) :
  (nat_of_ascii (pretty_N_char d) <? 128)%nat = true.
Proof. unfold pretty_N_char. repeat case_match; reflexivity. Qed.

Lemma is_digit_pretty_N_char (d : N) : is_Some (digit_of (pretty_N_char d)).
Proof. unfold pretty_N_char. repeat case_match; vm_compute; eauto. Qed.

Lemma nospace_pretty_N_go (x : N) : forall s,
  nospace (pretty_N_go x s) = nospace s.
Proof.
  induction (N.lt_wf_0 x) as [x _ IH]; intros s.
  destruct (decide (0 < x)%N) as [Hx | Hx].
  - rewrite pretty_N_go_step by exact Hx.
    rewrite IH by (apply N.div_lt; [exact Hx | reflexivity]).
    simpl. rewrite is_space_pretty_N_char. reflexivity.
  - replace x with 0%N by lia. reflexivity.
Qed.

Lemma ascii_only_pretty_N_go (x : N) : forall s,
  ascii_only (pretty_N_go x s) = ascii_only s.
Proof.
  induction (N.lt_wf_0 x) as [x _ IH]; intros s.
  destruct (decide (0 < x)%N) as [Hx | Hx].
  - rewrite pretty_N_go_step by exact Hx.
    rewrite IH by (apply N.div_lt; [exact Hx | reflexivity]).
    cbn [ascii_only]. rewrite ascii_pretty_N_char. reflexivity.
  - replace x with 0%N by lia. reflexivity.
Qed.

(** A number below [10 ^ k] is written with at most [k] digits. *)
Lemma count_digits_pretty_N_go (x : N) : forall (k : nat) s,
  (x < 10 ^ N.of_nat k)%N ->
  (count_digits (pretty_N_go x s) <= k + count_digits s)%nat.
Proof.
  induction (N.lt_wf_0 x) as [x _ IH]; intros k s Hk.
  destruct (decide (0 < x)%N) as [Hx | Hx].
  - rewrite pretty_N_go_step by exact Hx.
    destruct k as [| k].
    { exfalso. change (10 ^ N.of_nat 0)%N with 1%N in Hk. lia. }
    assert (Hdiv : (x `div` 10 < 10 ^ N.of_nat k)%N).
    { apply N.Div0.div_lt_upper_bound.
      rewrite <- N.pow_succ_r', <- Nat2N.inj_succ. exact Hk. }
    pose proof (IH (x `div` 10)%N
                  ltac:(apply N.div_lt; [exact Hx | reflexivity])
                  k (String (pretty_N_char (x `mod` 10)) s) Hdiv) as Hle.
    cbn [count_digits] in Hle.
    destruct (is_digit_pretty_N_char (x `mod` 10)) as [d Hd].
    rewrite Hd in Hle. lia.
  - replace x with 0%N by lia. rewrite pretty_N_go_0. lia.
Qed.

(** Reading the digits that [pretty] writes for a positive number. *)
Lemma digits_pretty_N_go (x : N) : forall s after_digit,
  (0 < x)%N ->
  digits 0 after_digit (pretty_N_go x s) = digits (Z.of_N x) true s.
Proof.
  induction (N.lt_wf_0 x) as [x _ IH]; intros s after_digit Hx.
  rewrite pretty_N_go_step by exact Hx.
  assert (Hmod : (x `mod` 10 < 10)%N) by (apply N.mod_lt; discriminate).
  assert (Hsplit : Z.of_N x
                   = 10 * Z.of_N (x `div` 10) + Z.of_N (x `mod` 10)).
  { rewrite <- N2Z.inj_mul with (n := 10%N), <- N2Z.inj_add.
    f_equal. apply N.div_mod. discriminate. }
  destruct (decide (0 < x `div` 10)%N) as [Hdiv | Hdiv].
  - rewrite IH; [| apply N.div_lt; [exact Hx | reflexivity] | exact Hdiv].
    simpl. rewrite (digit_of_pretty_N_char _ Hmod), <- Hsplit. reflexivity.
  - apply N.nlt_ge, N.le_0_r in Hdiv. rewrite Hdiv in Hsplit |- *.
    rewrite pretty_N_go_0. simpl.
    rewrite (digit_of_pretty_N_char _ Hmod), Hsplit. reflexivity.
Qed.

Lemma pretty_N_go_head (x : N) : forall s,
  (0 < x)%N ->
  exists d rest, (d < 10)%N /\ pretty_N_go x s = String (pretty_N_char d) rest.
Proof.
  induction (N.lt_wf_0 x) as [x _ IH]; intros s Hx.
  rewrite pretty_N_go_step by exact Hx.
  destruct (decide (0 < x `div` 10)%N) as [Hdiv | Hdiv].
  - apply IH; [apply N.div_lt; [exact Hx | reflexivity] | exact Hdiv].
  - apply N.nlt_ge, N.le_0_r in Hdiv. rewrite Hdiv, pretty_N_go_0.
    exists (x `mod` 10)%N, s. split; [| reflexivity].
    apply N.mod_lt. discriminate.
Qed.

(** A literal that starts with a digit has no sign to take off. *)
Lemma literal_unsigned c rest :
  is_Some (digit_of c) ->
  nospace (String c rest) = true ->
  literal (String c rest) = digits 0 false (String c rest).
Proof.
  intros [d Hd] Hs. unfold literal. rewrite (strip_nospace _ Hs).
  destruct c as [[] [] [] [] [] [] [] []]; try reflexivity;
    vm_compute in Hd; discriminate Hd.
Qed.

Lemma literal_pretty_pos (p : positive) :
  literal (pretty_N_go (N.pos p) "") = Some (Z.pos p).
Proof.
  destruct (pretty_N_go_head (N.pos p) "" ltac:(lia))
    as (d & rest & Hd & Hhead).
  assert (Hs : nospace (pretty_N_go (N.pos p) "") = true)
    by (rewrite nospace_pretty_N_go; reflexivity).
  rewrite Hhead in Hs |- *.
  rewrite literal_unsigned;
    [| rewrite (digit_of_pretty_N_char _ Hd); eauto | exact Hs].
  rewrite <- Hhead. rewrite digits_pretty_N_go by lia. reflexivity.
Qed.

(** The decimal rendering of an integer is a literal of that integer, with
    [pretty] for Python's [str] on integers. *)
Lemma literal_pretty (n : Z) : literal (pretty n) = Some n.
Proof.
  destruct n as [| p | p].
  - reflexivity.
  - apply literal_pretty_pos.
  - change (pretty (Z.neg p)) with (String "-" (pretty_N_go (N.pos p) "")).
    assert (Hs : nospace (String "-" (pretty_N_go (N.pos p) "")) = true).
    { simpl. rewrite nospace_pretty_N_go. reflexivity. }
    unfold literal. rewrite (strip_nospace _ Hs).
    rewrite digits_pretty_N_go by lia. reflexivity.
Qed.

Lemma ascii_only_pretty (n : Z) : ascii_only (pretty n) = true.
Proof.
  destruct n as [| p | p].
  - reflexivity.
  - apply (ascii_only_pretty_N_go (N.pos p) "").
  - change (pretty (Z.neg p)) with (String "-" (pretty_N_go (N.pos p) "")).
    cbn [ascii_only]. rewrite ascii_only_pretty_N_go. reflexivity.
Qed.

Lemma pos_below (p : positive) (k : nat) :
  Z.pos p < 10 ^ Z.of_nat k -> (N.pos p < 10 ^ N.of_nat k)%N.
Proof.
  intros Hp. apply N2Z.inj_lt. rewrite N2Z.inj_pow, nat_N_Z. exact Hp.
Qed.

(** [int(str(n)) = n] for an integer of at most 640 digits. *)
Lemma py_int_pretty (n : Z) :
  Z.abs n < 10 ^ 640 -> py_int (pretty n) = Parsed n.
Proof.
  intros Hn. unfold py_int.
  rewrite ascii_only_pretty, literal_pretty.
  assert (Hle : (count_digits (pretty n) <= 640)%nat).
  { destruct (Z.eq_dec n 0) as [-> | Hnz]; [simpl; lia |].
    destruct n as [| p | p]; [congruence | |].
    - pose proof (count_digits_pretty_N_go (N.pos p) 640 ""
                    (pos_below p 640 Hn)) as Hle.
      change (pretty (Z.pos p)) with (pretty_N_go (N.pos p) "").
      change (count_digits "") with O in Hle.
      rewrite Nat.add_0_r in Hle. exact Hle.
    - pose proof (count_digits_pretty_N_go (N.pos p) 640 ""
                    (pos_below p 640 Hn)) as Hle.
      change (pretty (Z.neg p)) with (String "-" (pretty_N_go (N.pos p) "")).
      change (count_digits (String "-" (pretty_N_go (N.pos p) "")))
        with (count_digits (pretty_N_go (N.pos p) "")).
      change (count_digits "") with O in Hle.
      rewrite Nat.add_0_r in Hle. exact Hle. }
  apply Nat.ltb_ge in Hle. rewrite Hle. reflexivity.
Qed.

(** X13: integers survive the environment. When RETRY_COUNT, RETRY_DELAY
    and POLL_INTERVAL are set to the decimal renderings of three integers
    of at most 640 digits each, negative ones included, loading succeeds
    and the attributes hold exactly those integers. *)
Theorem load_reads_back_decimal (env : gmap string string) (a b p : Z) :
  Z.abs a < 10 ^ 640 -> Z.abs b < 10 ^ 640 -> Z.abs p < 10 ^ 640 ->
  env !! "RETRY_COUNT" = Some (pretty a) ->
  env !! "RETRY_DELAY" = Some (pretty b) ->
  env !! "POLL_INTERVAL" = Some (pretty p) ->
  exists c,
    load env = Ok c /\
    RETRY_COUNT c = a /\ RETRY_DELAY c = b /\ POLL_INTERVAL c = p.
Proof.
  intros Ha' Hb' Hp' Ha Hb Hp. unfold load, load_with, int_getenv_with.
  rewrite Ha, Hb, Hp, !py_int_pretty by assumption. simpl.
  eexists. split; [reflexivity |]. repeat split.
Qed.

End DecimalRoundTrip.

Lemma load_reads_back_decimal_witness :
  exists c,
    Config.load
      (<[ "RETRY_COUNT" := "12" ]>
         (<[ "RETRY_DELAY" := "-7" ]> {[ "POLL_INTERVAL" := "300" ]}))
      = Config.Ok c /\
    Config.RETRY_COUNT c = 12 /\ Config.RETRY_DELAY c = -7 /\
    Config.POLL_INTERVAL c = 300.
Proof.
  apply (load_reads_back_decimal
           (<[ "RETRY_COUNT" := "12" ]>
              (<[ "RETRY_DELAY" := "-7" ]> {[ "POLL_INTERVAL" := "300" ]}))
           12 (-7) 300); vm_compute; reflexivity.
Defined.

(** * Further properties of the logger factory *)

Section LoggerMore.
Import Logger.
Variable ancestors : string -> list string.
Variable can_open : string -> bool.

Local Abbreviation parents' := (parents ancestors).
Local Abbreviation hasHandlers' := (hasHandlers ancestors).
Local Abbreviation log' := (log ancestors).
Local Abbreviation log_calls' := (log_calls ancestors).
Local Abbreviation setup_logger' := (setup_logger ancestors can_open).
Local Abbreviation acyclic' := (acyclic ancestors).

(** [getLogger] leaves every logger as it reads: a logger it creates is the
    one an unregistered name stands for. *)
Lemma get_getLogger name st r : get (getLogger name st).2 r = get st r.
Proof.
  unfold getLogger. destruct (ref_of name) as [| n]; [reflexivity |].
  destruct (loggerDict st !! n) as [l |] eqn:Hl; [reflexivity |].
  destruct r as [| m]; [reflexivity |]. simpl.
  destruct (decide (n = m)) as [<- | Hne].
  - rewrite lookup_insert_eq, Hl. reflexivity.
  - rewrite lookup_insert_ne by exact Hne. reflexivity.
Qed.

(** What [getLogger] does, for all loggers at once. *)
Lemma getLogger_all name st :
  exists st1,
    getLogger name st = (ref_of name, st1) /\
    registered st1 (ref_of name) /\
    (forall r, get st1 r = get st r) /\
    (acyclic' (ref_of name) ->
     parents' st1 (ref_of name) = parents' st (ref_of name)) /\
    files st1 = files st /\ stderr st1 = stderr st.
Proof.
  destruct (getLogger_spec ancestors can_open name st)
    as (st1 & Hget & Hreg & _ & Hparents & Hfiles & Herr & _).
  exists st1. pose proof (get_getLogger name st) as Hall.
  rewrite Hget in Hall. simpl in Hall. auto 10.
Qed.

(** X14: a level name that [logging] does not know makes [setup_logger]
    fail before anything is configured: no level is set, no handler is
    attached, no file is opened; the only trace of the call is that the
    name is now registered. *)
Theorem setup_logger_unknown_level name log_file level_name st :
  nameToLevel !! level_name = None ->
  exists st',
    setup_logger' name log_file level_name st
      = (st', inr (UnknownLevel level_name)) /\
    registered st' (ref_of name) /\
    (forall r, get st' r = get st r) /\
    files st' = files st /\ stderr st' = stderr st.
Proof.
  intros Hlevel.
  destruct (getLogger_all name st)
    as (st1 & Hget & Hreg & Hall & _ & Hfiles & Herr).
  exists st1. unfold Logger.setup_logger. rewrite Hget, Hlevel. auto.
Qed.

(** X15: when the log file cannot be opened, [setup_logger] fails with
    the level of the logger already set: the logger keeps the requested
    level, no handler is attached to it (not the console handler either),
    and no other logger, no file and nothing on the console changes. *)
Theorem setup_logger_open_failure name log_file level_name lv st :
  nameToLevel !! level_name = Some lv ->
  acyclic' (ref_of name) ->
  hasHandlers' st (ref_of name) = false ->
  can_open log_file = false ->
  exists st',
    setup_logger' name log_file level_name st
      = (st', inr (OpenFailed log_file)) /\
    Logger.level (get st' (ref_of name)) = lv /\
    handlers (get st' (ref_of name)) = [] /\
    (forall r, r <> ref_of name -> get st' r = get st r) /\
    files st' = files st /\ stderr st' = stderr st.
Proof.
  intros Hlevel Hacyclic Hnone Hopen.
  destruct (getLogger_all name st)
    as (st1 & Hget & Hreg & Hall & Hparents & Hfiles & Herr).
  specialize (Hparents Hacyclic).
  exists (update (ref_of name) (setLevel lv) st1).
  unfold Logger.setup_logger. rewrite Hget, Hlevel.
  rewrite hasHandlers_setLevel by assumption.
  assert (Hnone1 : hasHandlers' st1 (ref_of name) = false).
  { unfold Logger.hasHandlers. rewrite Hall, Hparents. exact Hnone. }
  rewrite Hnone1. simpl negb. cbv iota. rewrite Hopen.
  split; [reflexivity |].
  rewrite get_update by exact Hreg. rewrite Hall.
  split; [reflexivity |]. split.
  { unfold Logger.hasHandlers in Hnone. simpl in *.
    destruct (handlers (get st (ref_of name))); [reflexivity | discriminate]. }
  split.
  { intros r Hr. rewrite get_update_ne by exact Hr. apply Hall. }
  rewrite files_update, stderr_update. split; assumption.
Qed.

(** Handlers in reach: [setup_logger] only sets the level. *)
Lemma setup_logger_in_reach name log_file level_name lv st :
  nameToLevel !! level_name = Some lv ->
  acyclic' (ref_of name) ->
  hasHandlers' st (ref_of name) = true ->
  exists st',
    setup_logger' name log_file level_name st = (st', inl (ref_of name)) /\
    get st' (ref_of name) = setLevel lv (get st (ref_of name)) /\
    parents' st' (ref_of name) = parents' st (ref_of name) /\
    (forall r, r <> ref_of name -> get st' r = get st r) /\
    files st' = files st /\ stderr st' = stderr st.
Proof.
  intros Hlevel Hacyclic Hsome.
  destruct (getLogger_all name st)
    as (st1 & Hget & Hreg & Hall & Hparents & Hfiles & Herr).
  specialize (Hparents Hacyclic).
  exists (update (ref_of name) (setLevel lv) st1).
  unfold Logger.setup_logger. rewrite Hget, Hlevel.
  rewrite hasHandlers_setLevel by assumption.
  assert (Hsome1 : hasHandlers' st1 (ref_of name) = true).
  { unfold Logger.hasHandlers. rewrite Hall, Hparents. exact Hsome. }
  rewrite Hsome1. simpl negb. cbv iota.
  split; [reflexivity |].
  split; [rewrite get_update by exact Hreg; rewrite Hall; reflexivity |].
  split; [rewrite (parents_update ancestors can_open) by exact Hacyclic;
          exact Hparents |].
  split.
  { intros r Hr. rewrite get_update_ne by exact Hr. apply Hall. }
  rewrite files_update, stderr_update. split; assumption.
Qed.

(** X16: handlers anywhere in reach of the name, on the logger itself or on
    a logger above it such as the root logger, keep [setup_logger] from
    attaching anything: it only sets the level. No handler is added to any
    logger and the log file is neither created nor written. *)
Theorem setup_logger_skips_when_handlers_in_reach
  name log_file level_name lv st :
  nameToLevel !! level_name = Some lv ->
  acyclic' (ref_of name) ->
  hasHandlers' st (ref_of name) = true ->
  exists st',
    setup_logger' name log_file level_name st = (st', inl (ref_of name)) /\
    Logger.level (get st' (ref_of name)) = lv /\
    (forall r, handlers (get st' r) = handlers (get st r)) /\
    (forall r, r <> ref_of name -> get st' r = get st r) /\
    files st' = files st /\ stderr st' = stderr st.
Proof.
  intros Hlevel Hacyclic Hsome.
  destruct (setup_logger_in_reach name log_file level_name lv st
              Hlevel Hacyclic Hsome)
    as (st' & Hrun & Hget & _ & Hothers & Hfiles & Herr).
  exists st'. split; [exact Hrun |].
  split; [rewrite Hget; reflexivity |].
  split; [| auto].
  intros r. destruct (LoggerRef_eq_dec r (ref_of name)) as [-> | Hne].
  - rewrite Hget. reflexivity.
  - rewrite Hothers by exact Hne. reflexivity.
Qed.

Lemma getLogger_registered name st :
  registered st (ref_of name) -> getLogger name st = (ref_of name, st).
Proof.
  intros Hreg. destruct (getLogger_spec ancestors can_open name st)
    as (st1 & Hget & _ & _ & _ & _ & _ & Hsame).
  rewrite Hget, (Hsame Hreg). reflexivity.
Qed.

Lemma chain_hasHandlers_own l chain :
  handlers l <> [] -> chain_hasHandlers (l :: chain) = true.
Proof. simpl. destruct (handlers l); [contradiction | reflexivity]. Qed.

(** [setup_logger] writes nothing to the console. *)
Lemma setup_logger_stderr name log_file level_name st :
  stderr (setup_logger' name log_file level_name st).1 = stderr st.
Proof.
  destruct (getLogger_all name st) as (st0 & Hget & _ & _ & _ & _ & Herr).
  unfold Logger.setup_logger. rewrite Hget.
  destruct (nameToLevel !! level_name) as [lv |]; [| exact Herr].
  destruct (hasHandlers' _ _); simpl negb; cbv iota;
    [simpl; rewrite stderr_update; exact Herr |].
  destruct (can_open log_file); simpl; rewrite !stderr_update;
    [unfold open_append; simpl; rewrite stderr_update |]; exact Herr.
Qed.

(** X17: whatever its arguments and its outcome, [setup_logger] only adds.
    It writes nothing to the console, keeps the contents of every existing
    file (the log file is opened for appending, never truncated), touches no
    file but the log file and no logger but the named one, and on that one
    it keeps the handlers already attached, in place, and the [propagate]
    flag. *)
Theorem setup_logger_only_adds name log_file level_name st :
  let st' := (setup_logger' name log_file level_name st).1 in
  stderr st' = stderr st /\
  (forall p content, files st !! p = Some content ->
                     files st' !! p = Some content) /\
  (forall p, p <> log_file -> files st' !! p = files st !! p) /\
  (forall r, r <> ref_of name -> get st' r = get st r) /\
  (exists added,
      handlers (get st' (ref_of name)) =
        (handlers (get st (ref_of name)) ++ added)%list) /\
  propagate (get st' (ref_of name)) = propagate (get st (ref_of name)).
Proof.
  destruct (getLogger_all name st)
    as (st0 & Hget & Hreg & Hall & _ & Hfiles & Herr).
  unfold Logger.setup_logger. rewrite Hget.
  destruct (nameToLevel !! level_name) as [lv |].
  2:{ simpl. rewrite Hfiles, Hall. repeat split; auto.
      exists []. rewrite app_nil_r. reflexivity. }
  pose proof (registered_update _ (setLevel lv) _ Hreg) as Hreg2.
  assert (Hlevel_only :
    let st2 := update (ref_of name) (setLevel lv) st0 in
    stderr st2 = stderr st /\
    (forall p content, files st !! p = Some content ->
                       files st2 !! p = Some content) /\
    (forall p, p <> log_file -> files st2 !! p = files st !! p) /\
    (forall r, r <> ref_of name -> get st2 r = get st r) /\
    (exists added,
        handlers (get st2 (ref_of name)) =
          (handlers (get st (ref_of name)) ++ added)%list) /\
    propagate (get st2 (ref_of name)) = propagate (get st (ref_of name))).
  { simpl. rewrite stderr_update, files_update, Hfiles.
    rewrite get_update by exact Hreg. rewrite Hall.
    repeat split; auto.
    - intros r Hr. rewrite get_update_ne by exact Hr. apply Hall.
    - exists []. rewrite app_nil_r. reflexivity. }
  destruct (hasHandlers' _ _); simpl negb; cbv iota; [exact Hlevel_only |].
  destruct (can_open log_file); [| exact Hlevel_only].
  cbv zeta. simpl fst.
  pose proof (registered_open_append log_file _ _ Hreg2) as Hreg3.
  pose proof (registered_update _
                (addHandler (file_handler log_file lv)) _ Hreg3) as Hreg4.
  fold (file_handler log_file lv). fold (console_handler lv).
  rewrite !stderr_update, !files_update.
  rewrite !get_update by assumption. rewrite get_open_append.
  rewrite get_update by assumption. rewrite Hall.
  unfold open_append. simpl. rewrite stderr_update, files_update, Hfiles.
  split; [exact Herr |]. split; [| split; [| split; [| split]]].
  - intros p content Hp. destruct (decide (log_file = p)) as [<- | Hne].
    + rewrite lookup_insert_eq, Hp. reflexivity.
    + rewrite lookup_insert_ne by exact Hne. exact Hp.
  - intros p Hp. rewrite lookup_insert_ne by congruence. reflexivity.
  - intros r Hr. rewrite !get_update_ne by exact Hr.
    transitivity (get (update (ref_of name) (setLevel lv) st0) r);
      [destruct r; reflexivity |].
    rewrite get_update_ne by exact Hr. apply Hall.
  - eexists. rewrite <- app_assoc. reflexivity.
  - reflexivity.
Qed.

(** X18: a second call with the same arguments never changes anything:
    from any state, whether the first call succeeds or fails, calling
    [setup_logger] again on the state it leaves gives that state back, with
    the same result. *)
Theorem setup_logger_idempotent name log_file level_name st :
  setup_logger ancestors can_open name log_file level_name
    (setup_logger ancestors can_open name log_file level_name st).1
  = setup_logger ancestors can_open name log_file level_name st.
Proof.
  destruct (getLogger_all name st)
    as (st0 & Hget & Hreg & _).
  unfold Logger.setup_logger at 2 3. rewrite Hget.
  destruct (nameToLevel !! level_name) as [lv |] eqn:Hlevel.
  2:{ simpl. unfold Logger.setup_logger.
      rewrite (getLogger_registered _ _ Hreg), Hlevel. reflexivity. }
  pose proof (registered_update _ (setLevel lv) _ Hreg) as Hreg2.
  set (st2 := update (ref_of name) (setLevel lv) st0) in *.
  assert (Hid2 : update (ref_of name) (setLevel lv) st2 = st2).
  { apply update_id; [exact Hreg2 |]. unfold st2.
    rewrite get_update by exact Hreg. reflexivity. }
  destruct (hasHandlers' st2 (ref_of name)) eqn:Hhas; simpl negb; cbv iota.
  { simpl fst. unfold Logger.setup_logger.
    rewrite (getLogger_registered _ _ Hreg2), Hlevel, Hid2, Hhas.
    reflexivity. }
  destruct (can_open log_file) eqn:Hopen.
  2:{ simpl fst. unfold Logger.setup_logger.
      rewrite (getLogger_registered _ _ Hreg2), Hlevel, Hid2, Hhas, Hopen.
      reflexivity. }
  cbv zeta. simpl fst.
  fold (file_handler log_file lv). fold (console_handler lv).
  pose proof (registered_open_append log_file _ _ Hreg2) as Hreg3.
  pose proof (registered_update _
                (addHandler (file_handler log_file lv)) _ Hreg3) as Hreg4.
  pose proof (registered_update _
                (addHandler (console_handler lv)) _ Hreg4) as Hreg5.
  set (st5 := update (ref_of name) (addHandler (console_handler lv)) _) in *.
  assert (Hget5 : get st5 (ref_of name) =
                  addHandler (console_handler lv)
                    (addHandler (file_handler log_file lv)
                       (setLevel lv (get st0 (ref_of name))))).
  { unfold st5. rewrite !get_update by assumption.
    rewrite get_open_append. unfold st2.
    rewrite get_update by assumption. reflexivity. }
  assert (Hid5 : update (ref_of name) (setLevel lv) st5 = st5).
  { apply update_id; [exact Hreg5 |]. rewrite Hget5. reflexivity. }
  assert (Hhas5 : hasHandlers' st5 (ref_of name) = true).
  { unfold Logger.hasHandlers. apply chain_hasHandlers_own.
    rewrite Hget5. simpl. intros Hnil.
    apply app_eq_nil in Hnil as [_ [=]]. }
  unfold Logger.setup_logger.
  rewrite (getLogger_registered _ _ Hreg5), Hlevel, Hid5, Hhas5.
  reflexivity.
Qed.

(** A log call below the level of the logger does nothing. *)
Lemma log_below_level r lv levelno msg asctime st :
  Logger.level (get st r) = lv -> lv <> 0 -> levelno < lv ->
  log' r levelno msg asctime st = st.
Proof.
  intros Hlevel Hset Hlt. unfold Logger.log, Logger.getEffectiveLevel.
  simpl. rewrite Hlevel.
  destruct (Z.eqb_spec lv 0); [contradiction |].
  destruct (Z.leb_spec lv levelno); [lia | reflexivity].
Qed.

(** A series of log calls on a logger whose way up holds exactly the two
    handlers of [setup_logger]. *)
Lemma log_calls_output r log_file lv cs : forall st,
  Logger.level (get st r) = lv -> lv <> 0 ->
  chain_handlers (get st r :: parents' st r) =
    [file_handler log_file lv; console_handler lv] ->
  is_Some (files st !! log_file) ->
  files (log_calls' r cs st) !! log_file =
    Some (default [] (files st !! log_file) ++ output r lv cs)%list /\
  stderr (log_calls' r cs st) = (stderr st ++ output r lv cs)%list /\
  (forall p, p <> log_file ->
             files (log_calls' r cs st) !! p = files st !! p).
Proof.
  induction cs as [| [[levelno msg] asctime] cs IH];
    intros st Hlevel Hset Hchain [content Hfile].
  - unfold output. simpl. rewrite Hfile. simpl. rewrite !app_nil_r. auto.
  - change (log_calls' r ((levelno, msg, asctime) :: cs) st)
      with (log_calls' r cs (log' r levelno msg asctime st)).
    unfold output. simpl List.filter.
    destruct (Z.leb_spec lv levelno) as [Hle | Hlt].
    + rewrite (log_two_handlers ancestors r log_file lv);
        [| assumption | assumption | assumption | assumption].
      set (ln := written r (levelno, msg, asctime)).
      set (st' := emit ln (console_handler lv)
                    (emit ln (file_handler log_file lv) st)).
      assert (Hget : get st' r = get st r).
      { unfold st'. rewrite !get_emit. reflexivity. }
      assert (Hparents : parents' st' r = parents' st r).
      { unfold st'. rewrite !parents_emit. reflexivity. }
      assert (Hfile' : files st' !! log_file = Some (content ++ [ln])%list).
      { unfold st', emit. simpl. rewrite lookup_insert_eq, Hfile.
        reflexivity. }
      destruct (IH st') as (Hf & He & Ho);
        [rewrite Hget; exact Hlevel | exact Hset
        | rewrite Hget, Hparents; exact Hchain | eauto |].
      split; [| split].
      * rewrite Hf, Hfile', Hfile. simpl. rewrite <- app_assoc. reflexivity.
      * rewrite He. unfold st', emit. simpl. rewrite <- app_assoc.
        reflexivity.
      * intros p Hp. rewrite (Ho p Hp). unfold st', emit. simpl.
        rewrite lookup_insert_ne by congruence. reflexivity.
    + rewrite (log_below_level r lv) by assumption.
      apply IH; eauto.
Qed.

(** X19: a logger set up where no handler was in reach sends every log
    call at or above its level to the file and to the console alike, as one
    line each in the order of the calls, and drops every call below its
    level; no other file is written. *)
Theorem setup_logger_output name log_file level_name lv st
  (cs : list (Z * string * string)) :
  nameToLevel !! level_name = Some lv ->
  acyclic' (ref_of name) ->
  hasHandlers' st (ref_of name) = false ->
  can_open log_file = true ->
  lv <> 0 ->
  exists st1,
    setup_logger' name log_file level_name st = (st1, inl (ref_of name)) /\
    files (log_calls' (ref_of name) cs st1) !! log_file =
      Some (default [] (files st !! log_file)
              ++ output (ref_of name) lv cs)%list /\
    stderr (log_calls' (ref_of name) cs st1) =
      (stderr st ++ output (ref_of name) lv cs)%list /\
    (forall p, p <> log_file ->
               files (log_calls' (ref_of name) cs st1) !! p = files st !! p).
Proof.
  intros Hlevel Hacyclic Hnone Hopen Hset.
  destruct (setup_logger_fresh ancestors can_open name log_file level_name
              lv st Hlevel Hacyclic Hnone Hopen)
    as (st1 & Hfirst & Hreg & Hget & Hparents & Hfiles).
  exists st1. split; [exact Hfirst |].
  destruct (log_calls_output (ref_of name) log_file lv cs st1)
    as (Hf & He & Ho).
  - rewrite Hget. reflexivity.
  - exact Hset.
  - rewrite Hget, Hparents. simpl. do 2 f_equal.
    unfold Logger.hasHandlers in Hnone. simpl in Hnone.
    destruct (handlers (get st (ref_of name))); [| discriminate].
    destruct (propagate (get st (ref_of name))); [| reflexivity].
    apply chain_without_handlers. exact Hnone.
  - rewrite Hfiles, lookup_insert_eq. eauto.
  - split; [| split].
    + rewrite Hf, Hfiles, lookup_insert_eq. reflexivity.
    + rewrite He. f_equal.
      pose proof (setup_logger_stderr name log_file level_name st) as Herr.
      rewrite Hfirst in Herr. exact Herr.
    + intros p Hp. rewrite (Ho p Hp), Hfiles.
      rewrite lookup_insert_ne by congruence. reflexivity.
Qed.







Section Hierarchy.
(** A logger [child] whose nearest ancestor is the logger [parent]
    ("app.db" under "app"), neither of them the root logger. *)
Variables child parent : string.
Hypothesis child_named : ref_of child = Named child.
Hypothesis parent_named : ref_of parent = Named parent.
Hypothesis distinct : child <> parent.
Hypothesis nearest : ancestors child = parent :: ancestors parent.
Hypothesis child_not_above : child ∉ ancestors parent.
Hypothesis parent_acyclic : parent ∉ ancestors parent.





End Hierarchy.

End LoggerMore.

(** *** The further properties on sample states *)

Lemma setup_logger_unknown_level_witness :
  exists st',
    Logger.setup_logger Logger.dotted_ancestors (fun _ => true)
      "X" "app.log" "VERBOSE" Logger.initial
      = (st', inr (Logger.UnknownLevel "VERBOSE")) /\
    Logger.registered st' (Logger.ref_of "X") /\
    (forall r, Logger.get st' r = Logger.get Logger.initial r) /\
    Logger.files st' = Logger.files Logger.initial /\
    Logger.stderr st' = Logger.stderr Logger.initial.
Proof.
  apply (setup_logger_unknown_level Logger.dotted_ancestors (fun _ => true)
           "X" "app.log" "VERBOSE" Logger.initial).
  vm_compute. reflexivity.
Defined.

Lemma setup_logger_open_failure_witness :
  exists st',
    Logger.setup_logger Logger.dotted_ancestors (fun _ => false)
      "X" "/nowhere/app.log" "DEBUG" Logger.initial
      = (st', inr (Logger.OpenFailed "/nowhere/app.log")) /\
    Logger.level (Logger.get st' (Logger.ref_of "X")) = 10 /\
    Logger.handlers (Logger.get st' (Logger.ref_of "X")) = [] /\
    (forall r, r <> Logger.ref_of "X" ->
               Logger.get st' r = Logger.get Logger.initial r) /\
    Logger.files st' = Logger.files Logger.initial /\
    Logger.stderr st' = Logger.stderr Logger.initial.
Proof.
  apply (setup_logger_open_failure Logger.dotted_ancestors (fun _ => false)
           "X" "/nowhere/app.log" "DEBUG" 10 Logger.initial).
  - vm_compute. reflexivity.
  - vm_compute. intros H. inversion H.
  - vm_compute. reflexivity.
  - reflexivity.
Defined.

Lemma setup_logger_skips_when_handlers_in_reach_witness :
  exists st',
    Logger.setup_logger Logger.dotted_ancestors (fun _ => true)
      "X" "app.log" "INFO" Logger.after_basicConfig
      = (st', inl (Logger.ref_of "X")) /\
    Logger.level (Logger.get st' (Logger.ref_of "X")) = 20 /\
    (forall r, Logger.handlers (Logger.get st' r)
               = Logger.handlers (Logger.get Logger.after_basicConfig r)) /\
    (forall r, r <> Logger.ref_of "X" ->
               Logger.get st' r = Logger.get Logger.after_basicConfig r) /\
    Logger.files st' = Logger.files Logger.after_basicConfig /\
    Logger.stderr st' = Logger.stderr Logger.after_basicConfig.
Proof.
  apply (setup_logger_skips_when_handlers_in_reach
           Logger.dotted_ancestors (fun _ => true)
           "X" "app.log" "INFO" 20 Logger.after_basicConfig).
  - vm_compute. reflexivity.
  - vm_compute. intros H. inversion H.
  - vm_compute. reflexivity.
Defined.

Lemma setup_logger_output_witness :
  let r := Logger.ref_of "StockPriceMonitor" in
  exists st1,
    Logger.setup_logger Logger.dotted_ancestors (fun _ => true)
      "StockPriceMonitor" "stock_price_monitor.log" "INFO" Logger.initial
      = (st1, inl r) /\
    Logger.files
      (Logger.log_calls Logger.dotted_ancestors r Logger.example_calls st1)
      !! "stock_price_monitor.log" =
      Some (default [] (Logger.files Logger.initial
                          !! "stock_price_monitor.log")
              ++ Logger.output r 20 Logger.example_calls)%list /\
    Logger.stderr
      (Logger.log_calls Logger.dotted_ancestors r Logger.example_calls st1) =
      (Logger.stderr Logger.initial
         ++ Logger.output r 20 Logger.example_calls)%list /\
    (forall p, p <> "stock_price_monitor.log" ->
       Logger.files
         (Logger.log_calls Logger.dotted_ancestors r Logger.example_calls st1)
         !! p = Logger.files Logger.initial !! p).
Proof.
  apply (setup_logger_output Logger.dotted_ancestors (fun _ => true)
           "StockPriceMonitor" "stock_price_monitor.log" "INFO" 20
           Logger.initial Logger.example_calls).
  - vm_compute. reflexivity.
  - vm_compute. intros H. inversion H.
  - vm_compute. reflexivity.
  - reflexivity.
  - discriminate.
Defined.


